(** * Distributed random-search hyper-parameter optimisation (DistHPO_rpv.ipynb)

    A shallow embedding of the notebook's cells: the Sample Generator
    (cell 7), the Dispatch Loop (cell 10), the Result Collector (cell 13),
    the Model Selector (cells 19-21) and the Evaluator (cells 26-30).

    Conventions of the embedding.
    - Python exceptions are values of [exn]; a computation that may raise
      returns a [result].
    - A notebook cell is a computation [M A] over the kernel's [World]
      (random state, worker-pool client, shared file system, console).
    - The worker pool is its queue of submitted tasks and the table of the
      outcomes of the tasks it has finished.  Tasks finish one at a time,
      in any order ([pool_run]); every task terminates, so that a blocking
      [get] is modelled at the moment it returns.
    - Floating-point scores are finite numbers (an accuracy is a ratio of
      counts); they are represented by the rationals [Q] they denote, on
      which the comparisons [<] and [>] of the code agree with [Qlt].
    - numpy arrays are lists; a 2-d array is a list of rows. *)

From Stdlib Require Import QArith Ascii Sorted.
From stdpp Require Import base list strings pretty gmap.

(** ** Exceptions and fallible results *)

Inductive exn : Type :=
  | KeyError (key : string)
  | IndexError
  | ValueError (msg : string)
  | OSError (path : string)
  | FileExistsError (path : string)
  | FileNotFoundError (path : string)
  | NotADirectoryError (path : string)
  | RemoteError (cause : exn).

Inductive result (A : Type) : Type :=
  | Ok (a : A)
  | Raise (e : exn).
Arguments Ok {A} a.
Arguments Raise {A} e.

Global Instance result_ret : MRet result := λ A a, Ok a.
Global Instance result_bind : MBind result := λ A B f r,
  match r with
  | Ok a => f a
  | Raise e => Raise e
  end.
Global Instance result_fmap : FMap result := λ A B f r,
  match r with
  | Ok a => Ok (f a)
  | Raise e => Raise e
  end.

Definition is_Ok {A} (r : result A) : Prop := ∃ a, r = Ok a.

(** ** Python built-ins used by the notebook *)

(** [d[k]] on a dict. *)
Definition dict_getitem {V} (d : gmap string V) (k : string) : result V :=
  match d !! k with
  | Some v => Ok v
  | None => Raise (KeyError k)
  end.

(** [l[i]] on a sequence, for a non-negative index. *)
Definition getitem {A} (l : list A) (i : nat) : result A :=
  match l !! i with
  | Some x => Ok x
  | None => Raise IndexError
  end.

(** [l[-1]]. *)
Definition getitem_last {A} (l : list A) : result A :=
  match last l with
  | Some x => Ok x
  | None => Raise IndexError
  end.

(** [x > y] and [x < y] on scores. *)
Definition Qgtb (x y : Q) : bool := negb (Qle_bool x y).
Definition Qltb (x y : Q) : bool := negb (Qle_bool y x).

(** The built-in [max] of a sequence: the running maximum is replaced only
    by a strictly greater element; an empty sequence is a [ValueError]. *)
Definition max_step (m x : Q) : Q := if Qgtb x m then x else m.

Definition py_max (l : list Q) : result Q :=
  match l with
  | [] => Raise (ValueError "max() arg is an empty sequence")
  | x :: l' => Ok (foldl max_step x l')
  end.

(** ['%i' % n] for an integer. *)
Definition fmt_i_nat (n : nat) : string := pretty n.
Definition fmt_i (n : Z) : string := pretty n.

(** [os.path.join(a, b)] of posixpath. *)
Fixpoint last_char (s : string) : option ascii :=
  match s with
  | EmptyString => None
  | String c EmptyString => Some c
  | String _ s' => last_char s'
  end.

Definition ends_with_sep (s : string) : bool :=
  match last_char s with
  | Some c => bool_decide (c = "/"%char)
  | None => false
  end.

Definition starts_with_sep (s : string) : bool :=
  match s with
  | String c _ => bool_decide (c = "/"%char)
  | EmptyString => false
  end.

Definition path_join (a b : string) : string :=
  if starts_with_sep b then b
  else if bool_decide (a = "") || ends_with_sep a then a +:+ b
  else a +:+ "/" +:+ b.

(** The directories [os.makedirs(path)] needs: the ancestors of [path],
    outermost first.  Paths are compared as strings; trailing separators
    are dropped, as [os.path.split] does. *)
Fixpoint strip_trailing_sep (s : string) : string :=
  match s with
  | EmptyString => EmptyString
  | String c s' =>
      let t := strip_trailing_sep s' in
      if bool_decide (c = "/"%char) && bool_decide (t = "") then ""
      else String c t
  end.

Fixpoint ancestors_from (prefix rest : string) : list string :=
  match rest with
  | EmptyString => []
  | String c rest' =>
      (if bool_decide (c = "/"%char) && negb (bool_decide (prefix = ""))
          && negb (ends_with_sep prefix)
       then [prefix] else [])
      ++ ancestors_from (prefix +:+ String c "") rest'
  end.

Definition ancestors (path : string) : list string :=
  ancestors_from "" (strip_trailing_sep path).

(** The path at which [mkdir] fails with [ENOTDIR]: the one right below
    the outermost ancestor that is a file. *)
Fixpoint blocked_below (is_file : string → bool) (chain : list string)
    (name : string) : option string :=
  match chain with
  | [] => None
  | a :: chain' =>
      if is_file a
      then Some (match chain' with [] => name | b :: _ => b end)
      else blocked_below is_file chain' name
  end.

(** ** numpy: argmax, argmin, stack *)

(** [a.argmax()]: the index of the first maximal element. *)
Fixpoint argmax_from (l : list Q) (i : nat) (mp : Q) (max_ind : nat) : nat :=
  match l with
  | [] => max_ind
  | x :: l' =>
      if Qgtb x mp then argmax_from l' (S i) x i
      else argmax_from l' (S i) mp max_ind
  end.

Definition argmax (a : list Q) : result nat :=
  match a with
  | [] => Raise (ValueError "attempt to get argmax of an empty sequence")
  | x :: l => Ok (argmax_from l 1 x 0)
  end.

(** [a.argmin()]: the index of the first minimal element. *)
Fixpoint argmin_from (l : list Q) (i : nat) (mp : Q) (min_ind : nat) : nat :=
  match l with
  | [] => min_ind
  | x :: l' =>
      if Qltb x mp then argmin_from l' (S i) x i
      else argmin_from l' (S i) mp min_ind
  end.

Definition argmin (a : list Q) : result nat :=
  match a with
  | [] => Raise (ValueError "attempt to get argmin of an empty sequence")
  | x :: l => Ok (argmin_from l 1 x 0)
  end.

(** ** Training histories and the Model Selector (cells 19-21) *)

(** [history.history]: metric name to per-epoch values. *)
Abbreviation History := (gmap string (list Q)).

Definition val_acc (h : History) : result (list Q) := dict_getitem h "val_acc".

(** [last_scores = np.array([h['val_acc'][-1] for h in histories])] *)
Definition last_scores (histories : list History) : result (list Q) :=
  mapM (λ h, val_acc h ≫= getitem_last) histories.

(** [best_scores = np.array([max(h['val_acc']) for h in histories])] *)
Definition best_scores (histories : list History) : result (list Q) :=
  mapM (λ h, val_acc h ≫= py_max) histories.

(** Cell 19 followed by the two selections [i = best_scores.argmax()] and
    [i = best_scores.argmin()] of cells 20 and 21.  The result is the pair
    (best trial, worst trial); the plots of [draw_history] are not part of
    the model. *)
Definition model_selector (histories : list History) : result (nat * nat) :=
  _ ← last_scores histories;
  scores ← best_scores histories;
  best ← argmax scores;
  worst ← argmin scores;
  mret (best, worst).

(** The four synthetic trials of the end-to-end scenario. *)
Definition synthetic_history (accs : list Q) : History := {[ "val_acc" := accs ]}.

Definition synthetic_histories : list History :=
  [ synthetic_history [1#2; 3#5];
    synthetic_history [1#2; 9#10];
    synthetic_history [1#2; 11#20];
    synthetic_history [1#2; 7#10] ].


(** ** Plots of a history (cell 18) *)

(** One subplot: the curves drawn with their labels, the x range, the y
    range when the code sets one, and the axis labels. *)
Record Panel : Type := {
  series : list (string * list Q);
  xlim : Z * Z;
  ylim : option (Q * Q);
  xlabel : string;
  ylabel : string;
}.

Record Figure : Type := {
  loss_panel : Panel;
  accuracy_panel : Panel;
}.

(** [draw_history(h)]: the look-ups of [h] in the order of the code; the
    value is the figure once every call of [plt] has been made. *)
Definition draw_history (h : History) : result Figure :=
  loss ← dict_getitem h "loss";
  val_loss ← dict_getitem h "val_loss";
  loss_x ← dict_getitem h "loss";
  acc ← dict_getitem h "acc";
  val_acc ← dict_getitem h "val_acc";
  loss_x' ← dict_getitem h "loss";
  mret {|
    loss_panel := {|
      series := [("Training", loss); ("Validation", val_loss)];
      xlim := (0, Z.of_nat (length loss_x) - 1)%Z;
      ylim := None;
      xlabel := "Epoch"; ylabel := "Loss" |};
    accuracy_panel := {|
      series := [("Training", acc); ("Validation", val_acc)];
      xlim := (0, Z.of_nat (length loss_x') - 1)%Z;
      ylim := Some (0, 1)%Q;
      xlabel := "Epoch"; ylabel := "Accuracy" |};
  |}.

(** ** Names derived from the job id *)

(** ['cori_{}'.format(job_id)] of cell 4. *)
Definition cluster_id (job_id : Z) : string := "cori_" +:+ fmt_i job_id.

(** Whether a string holds a path separator. *)
Fixpoint has_sep (s : string) : bool :=
  match s with
  | EmptyString => false
  | String c s' => bool_decide (c = "/"%char) || has_sep s'
  end.

(** ** numpy: stacking and random draws *)

(** [np.stack(cols, axis=1)] of 1-d arrays: row [i] holds the [i]-th
    element of every array; arrays of different lengths are a
    [ValueError]. *)
Definition stack_axis1 (cols : list (list Z)) : result (list (list Z)) :=
  match cols with
  | [] => Raise (ValueError "need at least one array to stack")
  | c :: _ =>
      if forallb (λ c', Nat.eqb (length c') (length c)) cols
      then Ok (map (λ i, map (λ col, col !!! i) cols) (seq 0 (length c)))
      else Raise (ValueError "all input arrays must have the same shape")
  end.

(** ** External collaborators

    numpy's generator, the rpv module with Keras, sklearn's metrics and the
    float formatting of [%] are not part of the notebook; the embedding is
    parametric in them. *)
Class Externals : Type := {
  (** state of [np.random], its seeding and one raw 32-bit draw *)
  RandomState : Type;
  np_seed : N → RandomState;
  random_raw : RandomState → N * RandomState;
  (** rpv / Keras *)
  Tensor : Type;
  Model : Type;
  tensor_shape : Tensor → list Z;
  load_file : string → Z → result (Tensor * list Z * list Q);
  build_model : list Z → list Z → list Z → Q → string → Q → result Model;
  fit : Model → Tensor → list Z → Tensor → list Z → Z → Z → option string →
        result (History * Model);
  predict : Model → Tensor → result (list Q);
  (** sklearn.metrics, on labels, predictions and optional sample weights *)
  accuracy_score : list Z → list bool → option (list Q) → result Q;
  precision_score : list Z → list bool → option (list Q) → result Q;
  recall_score : list Z → list bool → option (list Q) → result Q;
  (** [str] of an integer array and ['%.<d>f' % x] *)
  fmt_s : list Z → string;
  fmt_f : nat → Q → string;
}.

(** Arguments of one [build_and_train] call, as passed to [lv.apply]. *)
Record JobDescriptor : Type := {
  jd_input_dir : string;
  jd_n_train : Z;
  jd_n_valid : Z;
  jd_conv_sizes : list Z;
  jd_fc_sizes : list Z;
  jd_dropout : Q;
  jd_optimizer : string;
  jd_lr : Q;
  jd_batch_size : Z;
  jd_n_epochs : Z;
  jd_checkpoint_file : option string;
}.

(** An [AsyncResult] handle names its task by message id. *)
Record AsyncResult : Type := { msg_id : nat }.

(** The hyper-parameter arrays of cell 7. *)
Record Samples : Type := {
  h1 : list Z;
  h2 : list Z;
  h3 : list Z;
  conv_sizes : list (list Z);
  fc_sizes : list (list Z);
  lr : list Q;
  dropout : list Q;
  optimizer : list string;
}.

(** The hyper-parameters of one trial: row [ihp] of every array. *)
Record HyperparameterSample : Type := {
  hp_conv_sizes : list Z;
  hp_fc_sizes : list Z;
  hp_dropout : Q;
  hp_optimizer : string;
  hp_lr : Q;
}.

(** [conv_sizes[ihp], fc_sizes[ihp], dropout[ihp], optimizer[ihp], lr[ihp]] *)
Definition sample_at (s : Samples) (ihp : nat) : result HyperparameterSample :=
  cs ← getitem (conv_sizes s) ihp;
  fs ← getitem (fc_sizes s) ihp;
  d ← getitem (dropout s) ihp;
  o ← getitem (optimizer s) ihp;
  l ← getitem (lr s) ihp;
  mret {| hp_conv_sizes := cs; hp_fc_sizes := fs; hp_dropout := d;
          hp_optimizer := o; hp_lr := l |}.

(** The constants set in cells 4, 6 and 7. *)
Record Config : Type := {
  job_id : Z;
  n_train : Z;
  n_valid : Z;
  n_test : Z;
  input_dir : string;
  n_hpo_trials : nat;
  batch_size : Z;
  n_epochs : Z;
}.

Definition notebook_config : Config := {|
  job_id := 24194075;
  n_train := 64000;
  n_valid := 32000;
  n_test := 32000;
  input_dir := "/global/cscratch1/sd/sfarrell/atlas-rpv-images";
  n_hpo_trials := 32;
  batch_size := 64;
  n_epochs := 16;
|}.

Global Instance Q_inhabited : Inhabited Q := populate 0%Q.

(** ** The ranking of cell 24 *)

(** What [a.argsort()] returns: the indices of [a], each once, in an order
    in which the values do not decrease.  The order among equal values is
    left to numpy's sorting algorithm. *)
Definition is_argsort (a : list Q) (order : list nat) : Prop :=
  order ≡ₚ seq 0 (length a) ∧
  ∀ p q i j x y, p < q → order !! p = Some i → order !! q = Some j →
                 a !! i = Some x → a !! j = Some y → (x <= y)%Q.

(** [order[::-1][:5]] *)
Definition top5 (order : list nat) : list nat := take 5 (reverse order).

(** An argsort that can be run: insertion of the indices from the last to
    the first, each before the first index of a value that is not
    smaller. *)
Fixpoint insert_index (a : list Q) (i : nat) (order : list nat) : list nat :=
  match order with
  | [] => [i]
  | j :: order' =>
      if Qle_bool (a !!! i) (a !!! j) then i :: order
      else j :: insert_index a i order'
  end.

Definition argsort (a : list Q) : list nat :=
  foldr (insert_index a) [] (seq 0 (length a)).

Section notebook.
Context {E : Externals}.

(** ** The kernel's world and the cell monad *)

Record World : Type := {
  environ : gmap string string;          (* os.environ *)
  np_random : RandomState;               (* global state of np.random *)
  queue : list JobDescriptor;            (* tasks submitted, by msg id *)
  outcomes : gmap nat (result History);  (* tasks the pool has finished *)
  fetched : list nat;                    (* msg ids whose result was fetched *)
  files : gmap string Model;             (* checkpoints on the file system *)
  stdout : list string;                  (* lines printed by the kernel *)
}.

Definition M (A : Type) : Type := World → result A * World.

Global Instance M_ret : MRet M := λ A a w, (Ok a, w).
Global Instance M_bind : MBind M := λ A B f m w,
  match m w with
  | (Ok a, w') => f a w'
  | (Raise e, w') => (Raise e, w')
  end.

Definition lift {A} (r : result A) : M A := λ w, (r, w).

(** Field updates. *)
Definition with_np_random (s : RandomState) (w : World) : World :=
  {| environ := environ w; np_random := s; queue := queue w;
     outcomes := outcomes w; fetched := fetched w; files := files w;
     stdout := stdout w |}.

Definition with_queue (q : list JobDescriptor) (w : World) : World :=
  {| environ := environ w; np_random := np_random w; queue := q;
     outcomes := outcomes w; fetched := fetched w; files := files w;
     stdout := stdout w |}.

Definition with_outcomes (o : gmap nat (result History)) (w : World) : World :=
  {| environ := environ w; np_random := np_random w; queue := queue w;
     outcomes := o; fetched := fetched w; files := files w;
     stdout := stdout w |}.

Definition with_fetched (l : list nat) (w : World) : World :=
  {| environ := environ w; np_random := np_random w; queue := queue w;
     outcomes := outcomes w; fetched := l; files := files w;
     stdout := stdout w |}.

Definition with_files (fs : gmap string Model) (w : World) : World :=
  {| environ := environ w; np_random := np_random w; queue := queue w;
     outcomes := outcomes w; fetched := fetched w; files := fs;
     stdout := stdout w |}.

Definition with_stdout (out : list string) (w : World) : World :=
  {| environ := environ w; np_random := np_random w; queue := queue w;
     outcomes := outcomes w; fetched := fetched w; files := files w;
     stdout := out |}.

Definition print (line : string) : M () := λ w,
  (Ok (), with_stdout (stdout w ++ [line]) w).

Definition os_environ (k : string) : M string := λ w,
  (dict_getitem (environ w) k, w).

(** [os.makedirs(name, exist_ok=True)].  The file system of the model holds
    files only, without directories or permissions: creating the
    directories leaves it as it is, and the call fails when a file is in
    the way, with [NotADirectoryError] for a file at an ancestor and
    [FileExistsError] for a file at [name] itself; the empty name is
    refused with [FileNotFoundError]. *)
Definition os_makedirs (name : string) : M () := λ w,
  if bool_decide (name = "") then (Raise (FileNotFoundError name), w)
  else
    match blocked_below (λ p, bool_decide (is_Some (files w !! p)))
            (ancestors name) name with
    | Some p => (Raise (NotADirectoryError p), w)
    | None =>
        if bool_decide (is_Some (files w !! strip_trailing_sep name))
        then (Raise (FileExistsError name), w)
        else (Ok (), w)
    end.

(** [for x in l: acc = body(x, acc)] *)
Fixpoint for_each {A S} (l : list A) (body : A → S → M S) (acc : S) : M S :=
  match l with
  | [] => mret acc
  | x :: l' => acc' ← body x acc; for_each l' body acc'
  end.

(** ** np.random *)

(** [np.random.seed(n)] *)
Definition np_random_seed (n : N) : M () := λ w,
  (Ok (), with_np_random (np_seed n) w).

(** One 32-bit word of the generator. *)
Definition random_draw : M N := λ w,
  let '(x, s) := random_raw (np_random w) in
  (Ok (x `mod` 2 ^ 32)%N, with_np_random s w).

(** A bounded integer draw in [0, n): numpy derives it from raw words of
    the generator; the model takes the residue of one word. *)
Definition randint (n : nat) : M nat :=
  x ← random_draw; mret (N.to_nat (x `mod` N.of_nat n)).

(** A double in [0, 1) from two words: 27 and 26 high bits over 2^53. *)
Definition random_sample : M Q :=
  a ← random_draw;
  b ← random_draw;
  mret (Z.of_N (N.shiftr a 5 * 67108864 + N.shiftr b 6) # 9007199254740992).

Fixpoint repeatM {A} (n : nat) (m : M A) : M (list A) :=
  match n with
  | O => mret []
  | S n' => x ← m; l ← repeatM n' m; mret (x :: l)
  end.

(** [np.random.choice(a, size=size)]: [size] indices into [a], then the
    elements at these indices. *)
Definition choice {A} (a : list A) (size : nat) : M (list A) :=
  match a, size with
  | [], S _ =>
      lift (Raise (ValueError "'a' cannot be empty unless no samples are taken"))
  | _, _ =>
      idx ← repeatM size (randint (length a));
      lift (mapM (getitem a) idx)
  end.

(** [np.random.choice(a, size=(rows, cols))]: the draws fill the result
    row by row. *)
Definition choice_2d {A} (a : list A) (rows cols : nat) : M (list (list A)) :=
  repeatM rows (choice a cols).

(** [np.random.rand(n)] *)
Definition rand (n : nat) : M (list Q) := repeatM n random_sample.

(** ** Sample Generator (cell 7) *)

Definition sample_generator (n_hpo_trials : nat) : M Samples :=
  h1 ← choice [4; 8; 16; 32; 64]%Z n_hpo_trials;
  h2 ← choice [4; 8; 16; 32; 64]%Z n_hpo_trials;
  h3 ← choice [8; 16; 32; 64; 128]%Z n_hpo_trials;
  conv_sizes ← lift (stack_axis1 [h1; h2; h3]);
  fc_sizes ← choice_2d [32; 64; 128; 256]%Z n_hpo_trials 1;
  lr ← choice [1 # 10000; 1 # 1000; 1 # 100] n_hpo_trials;
  dropout ← rand n_hpo_trials;
  optimizer ← choice ["Adadelta"; "Adam"; "Nadam"] n_hpo_trials;
  mret {| h1 := h1; h2 := h2; h3 := h3; conv_sizes := conv_sizes;
          fc_sizes := fc_sizes; lr := lr; dropout := dropout;
          optimizer := optimizer |}.

(** [checkpoint_dir] of cell 7, from the value of [$SCRATCH]. *)
Definition checkpoint_dir_of (scratch : string) (job_id : Z) : string :=
  path_join scratch ("cori-interactive-dl/rpv_hpo_" +:+ fmt_i job_id).

(** Cell 7: seed, draw the search points, compute the checkpoint directory
    and create it. *)
Definition cell7 (cfg : Config) : M (Samples * string) :=
  np_random_seed 0;;
  samples ← sample_generator (n_hpo_trials cfg);
  scratch ← os_environ "SCRATCH";
  let checkpoint_dir := checkpoint_dir_of scratch (job_id cfg) in
  os_makedirs checkpoint_dir;;
  mret (samples, checkpoint_dir).

(** ** The remote job (cell 9) *)

Definition write_file (path : string) (m : Model) : M () := λ w,
  (Ok (), with_files (<[path := m]> (files w)) w).

(** Modelled from the spec: rpv.train_model is not in the notebook.  It
    fits the model and returns the training history; the trained artifact
    is persisted at [checkpoint_file] when one is given. *)
Definition train_model (model : Model)
    (train_input : Tensor) (train_labels : list Z)
    (valid_input : Tensor) (valid_labels : list Z)
    (batch_size n_epochs : Z) (checkpoint_file : option string) : M History :=
  '(history, trained) ← lift (fit model train_input train_labels
                                valid_input valid_labels
                                batch_size n_epochs checkpoint_file);
  (match checkpoint_file with
   | Some path => write_file path trained
   | None => mret ()
   end : M ());;
  mret history.

(** [build_and_train]: load the two datasets, build the model, train it and
    return [history.history].  The worker's own console ([print],
    [verbose]) and its thread settings are not modelled. *)
Definition build_and_train (input_dir : string) (n_train n_valid : Z)
    (conv_sizes fc_sizes : list Z) (dropout : Q) (optimizer : string) (lr : Q)
    (batch_size n_epochs : Z) (checkpoint_file : option string) : M History :=
  '(train_input, train_labels, train_weights) ←
      lift (load_file (path_join input_dir "train.h5") n_train);
  '(valid_input, valid_labels, valid_weights) ←
      lift (load_file (path_join input_dir "val.h5") n_valid);
  model ← lift (build_model (tail (tensor_shape train_input))
                  conv_sizes fc_sizes dropout optimizer lr);
  train_model model train_input train_labels valid_input valid_labels
    batch_size n_epochs checkpoint_file.

(** The value and the trained artifact of a job, apart from the file it
    writes: what [build_and_train] computes from its arguments. *)
Definition job_outcome (jd : JobDescriptor) : result (History * Model) :=
  '(train_input, train_labels, train_weights) ←
      load_file (path_join (jd_input_dir jd) "train.h5") (jd_n_train jd);
  '(valid_input, valid_labels, valid_weights) ←
      load_file (path_join (jd_input_dir jd) "val.h5") (jd_n_valid jd);
  model ← build_model (tail (tensor_shape train_input))
            (jd_conv_sizes jd) (jd_fc_sizes jd) (jd_dropout jd)
            (jd_optimizer jd) (jd_lr jd);
  fit model train_input train_labels valid_input valid_labels
    (jd_batch_size jd) (jd_n_epochs jd) (jd_checkpoint_file jd).

Definition run_task (jd : JobDescriptor) : M History :=
  build_and_train (jd_input_dir jd) (jd_n_train jd) (jd_n_valid jd)
    (jd_conv_sizes jd) (jd_fc_sizes jd) (jd_dropout jd) (jd_optimizer jd)
    (jd_lr jd) (jd_batch_size jd) (jd_n_epochs jd) (jd_checkpoint_file jd).

(** ** Worker Pool Client *)

(** A worker runs the pending task [id] to completion and records its
    outcome; a finished or unknown task is left alone. *)
Definition execute (id : nat) (w : World) : World :=
  match outcomes w !! id, queue w !! id with
  | None, Some jd =>
      let '(r, w') := run_task jd w in
      with_outcomes (<[id := r]> (outcomes w')) w'
  | _, _ => w
  end.

(** The pool finishes tasks in some order while the kernel is busy
    elsewhere. *)
Definition pool_run (order : list nat) (w : World) : World :=
  foldl (λ w id, execute id w) w order.

(** [lv.apply(build_and_train, ...)]: queue the task, return its handle at
    once. *)
Definition lv_apply (jd : JobDescriptor) : M AsyncResult := λ w,
  (Ok {| msg_id := length (queue w) |}, with_queue (queue w ++ [jd]) w).

(** [ar.ready()] *)
Definition ready (ar : AsyncResult) (w : World) : bool :=
  bool_decide (is_Some (outcomes w !! msg_id ar)).

(** [ar.get()]: block until the task has finished (a task still pending is
    run to completion at this point), then return its value or re-raise
    its exception wrapped in a [RemoteError].  The last case is a handle
    that this client never issued. *)
Definition async_get (ar : AsyncResult) : M History := λ w,
  let w1 := execute (msg_id ar) w in
  let w2 := with_fetched (fetched w1 ++ [msg_id ar]) w1 in
  match outcomes w1 !! msg_id ar with
  | Some (Ok h) => (Ok h, w2)
  | Some (Raise e) => (Raise (RemoteError e), w2)
  | None => (Raise (KeyError "msg_id"), w2)
  end.

(** ** Dispatch Loop (cell 10) *)

Definition checkpoint_file (checkpoint_dir : string) (ihp : nat) : string :=
  path_join checkpoint_dir ("model_" +:+ fmt_i_nat ihp +:+ ".h5").

(** The arguments of the [lv.apply] call of one trial. *)
Definition job_descriptor (cfg : Config) (hp : HyperparameterSample)
    (checkpoint_file : string) : JobDescriptor := {|
  jd_input_dir := input_dir cfg;
  jd_n_train := n_train cfg;
  jd_n_valid := n_valid cfg;
  jd_conv_sizes := hp_conv_sizes hp;
  jd_fc_sizes := hp_fc_sizes hp;
  jd_dropout := hp_dropout hp;
  jd_optimizer := hp_optimizer hp;
  jd_lr := hp_lr hp;
  jd_batch_size := batch_size cfg;
  jd_n_epochs := n_epochs cfg;
  jd_checkpoint_file := Some checkpoint_file;
|}.

Definition trial_line (ihp : nat) (hp : HyperparameterSample) : string :=
  "Hyperparameter trial " +:+ fmt_i_nat ihp
  +:+ " conv " +:+ fmt_s (hp_conv_sizes hp)
  +:+ " fc " +:+ fmt_s (hp_fc_sizes hp)
  +:+ " dropout " +:+ fmt_f 4 (hp_dropout hp)
  +:+ " opt " +:+ hp_optimizer hp
  +:+ ", lr " +:+ fmt_f 4 (hp_lr hp).

(** One iteration: print the trial, compute its checkpoint path, submit,
    append the handle. *)
Definition dispatch_body (cfg : Config) (s : Samples) (checkpoint_dir : string)
    (ihp : nat) (results : list AsyncResult) : M (list AsyncResult) :=
  hp ← lift (sample_at s ihp);
  print (trial_line ihp hp);;
  result ← lv_apply (job_descriptor cfg hp (checkpoint_file checkpoint_dir ihp));
  mret (results ++ [result]).

Definition dispatch_loop (cfg : Config) (s : Samples) (checkpoint_dir : string)
    : M (list AsyncResult) :=
  for_each (seq 0 (n_hpo_trials cfg)) (dispatch_body cfg s checkpoint_dir) [].

(** ** Result Collector (cells 11 and 13) *)

(** [np.sum([ar.ready() for ar in results])] *)
Definition tasks_completed (results : list AsyncResult) (w : World) : nat :=
  length (filter (λ ar, ready ar w = true) results).

(** [histories = [ar.get() for ar in results]] *)
Definition result_collector (results : list AsyncResult) : M (list History) :=
  mapM async_get results.

(** ** Evaluator (cells 26-30) *)

Definition default_threshold : Q := 1 # 2.

(** [preds = outputs > threshold] *)
Definition preds (outputs : list Q) (threshold : Q) : list bool :=
  map (λ o, Qgtb o threshold) outputs.

Definition summarize_metrics (labels : list Z) (outputs : list Q)
    (threshold : Q) (weights : option (list Q)) : M () :=
  let preds := preds outputs threshold in
  a ← lift (accuracy_score labels preds weights);
  print ("Accuracy:   " +:+ fmt_f 4 a);;
  p ← lift (precision_score labels preds weights);
  print ("Purity:     " +:+ fmt_f 4 p);;
  r ← lift (recall_score labels preds weights);
  print ("Efficiency: " +:+ fmt_f 4 r).

(** [keras.models.load_model(path)] *)
Definition load_model (path : string) : M Model := λ w,
  match files w !! path with
  | Some m => (Ok m, w)
  | None => (Raise (OSError path), w)
  end.

(** Cell 28: the path of the best trial's checkpoint. *)
Definition model_file (checkpoint_dir : string) (best_scores : list Q)
    : result string :=
  i ← argmax best_scores;
  mret (path_join checkpoint_dir ("model_" +:+ fmt_i_nat i +:+ ".h5")).

(** Cells 27-30; [predict] stands for [model.predict] followed by
    [squeeze(-1)]. *)
Definition evaluator (cfg : Config) (checkpoint_dir : string)
    (best_scores : list Q) : M () :=
  '(test_input, test_labels, test_weights) ←
      lift (load_file (path_join (input_dir cfg) "test.h5") (n_test cfg));
  path ← lift (model_file checkpoint_dir best_scores);
  model ← load_model path;
  test_output ← lift (predict model test_input);
  print "Unweighted metrics";;
  summarize_metrics test_labels test_output default_threshold None;;
  print "Weighted metrics";;
  summarize_metrics test_labels test_output default_threshold (Some test_weights).

(** ** The console reports of cells 11, 20, 21 and 24 *)

(** Cell 11. *)
Definition cell11 (results : list AsyncResult) : M () := λ w,
  print ("Tasks completed: " +:+ fmt_i_nat (tasks_completed results w)
         +:+ " / " +:+ fmt_i_nat (length results)) w.

Definition report_line (i : nat) (hp : HyperparameterSample) : string :=
  "Hyperparameters: trial " +:+ fmt_i_nat i
  +:+ " conv " +:+ fmt_s (hp_conv_sizes hp)
  +:+ " fc " +:+ fmt_s (hp_fc_sizes hp)
  +:+ " dropout " +:+ fmt_f 3 (hp_dropout hp)
  +:+ " opt " +:+ hp_optimizer hp
  +:+ ", lr " +:+ fmt_f 3 (hp_lr hp).

(** The body shared by cells 20 and 21, for the trial [i] they select:
    three lines, then the plot of its history. *)
Definition report_trial (s : Samples) (histories : list History)
    (last_scores best_scores : list Q) (i : nat) : M Figure :=
  hp ← lift (sample_at s i);
  print (report_line i hp);;
  l ← lift (getitem last_scores i);
  print ("  Last validation accuracy " +:+ fmt_f 4 l);;
  b ← lift (getitem best_scores i);
  print ("  Best validation accuracy " +:+ fmt_f 4 b);;
  h ← lift (getitem histories i);
  lift (draw_history h).

Definition cell20 (s : Samples) (histories : list History)
    (last_scores best_scores : list Q) : M Figure :=
  i ← lift (argmax best_scores);
  report_trial s histories last_scores best_scores i.

Definition cell21 (s : Samples) (histories : list History)
    (last_scores best_scores : list Q) : M Figure :=
  i ← lift (argmin best_scores);
  report_trial s histories last_scores best_scores i.

(** Cell 24, [order] being the value of [best_scores.argsort()]. *)
Definition cell24 (s : Samples) (best_scores : list Q) (order : list nat)
    : M () :=
  for_each (top5 order)
    (λ i _,
       hp ← lift (sample_at s i);
       print (report_line i hp);;
       b ← lift (getitem best_scores i);
       print ("  Best validation accuracy " +:+ fmt_f 4 b))
    ().

(** ** Notions used in the statements *)

(** The world after some iterations of the Dispatch Loop: the jobs queued
    and the lines printed so far. *)
Definition dispatched (w : World) (jobs : list JobDescriptor)
    (lines : list string) : World :=
  with_stdout (stdout w ++ lines) (with_queue (queue w ++ jobs) w).

(** The world after a job that trained [m] has written its checkpoint. *)
Definition checkpointed (jd : JobDescriptor) (m : Model) (w : World) : World :=
  match jd_checkpoint_file jd with
  | Some path => with_files (<[path := m]> (files w)) w
  | None => w
  end.

(** What [ar.get()] yields for a task with arguments [jd]. *)
Definition get_result (jd : JobDescriptor) : result History :=
  match job_outcome jd with
  | Ok (h, _) => Ok h
  | Raise e => Raise (RemoteError e)
  end.

(** How many handles a collection over these tasks fetches: all of them, or
    those up to and including the first failed one. *)
Fixpoint attempts (jobs : list JobDescriptor) : nat :=
  match jobs with
  | [] => 0
  | jd :: jobs' =>
      match get_result jd with
      | Ok _ => S (attempts jobs')
      | Raise _ => 1
      end
  end.

(** A client through which nothing has been submitted or fetched yet
    (cell 4 has just connected). *)
Definition fresh_pool (w : World) : Prop :=
  queue w = [] ∧ outcomes w = ∅ ∧ fetched w = [].

(** Consistency of the pool: a recorded outcome is the outcome of the
    queued task of that id, whose checkpoint is on the file system if it
    succeeded; no two queued tasks write the same checkpoint. *)
Definition pool_ok (w : World) : Prop :=
  (∀ id r, outcomes w !! id = Some r →
     ∃ jd, queue w !! id = Some jd ∧ r = fst <$> job_outcome jd ∧
           ∀ h m path, job_outcome jd = Ok (h, m) →
                       jd_checkpoint_file jd = Some path →
                       files w !! path = Some m) ∧
  (∀ i j jdi jdj path,
     queue w !! i = Some jdi → queue w !! j = Some jdj →
     jd_checkpoint_file jdi = Some path → jd_checkpoint_file jdj = Some path →
     i = j).

End notebook.

(** ** A concrete instance of the collaborators, for the examples

    A linear congruential generator, a one-parameter "model" whose second
    epoch reaches the validation accuracy [1/4 + dropout/2] and whose
    training fails for large batches when that value exceeds 1/2, and the
    binary-classification metrics with unit default weights. *)
Module Toy.

Definition lcg (s : N) : N * N :=
  let s' := ((s * 1103515245 + 12345) `mod` 4294967296)%N in (s', s').

Definition dataset : list Q * list Z * list Q :=
  ([1 # 4; 3 # 4; 1 # 2; 9 # 10], [0; 1; 0; 1]%Z, [1; 1; 2; 2]%Q).

Definition toy_fit (model : Q) (train_input : list Q) (train_labels : list Z)
    (valid_input : list Q) (valid_labels : list Z) (batch_size n_epochs : Z)
    (checkpoint_file : option string) : result (History * Q) :=
  if bool_decide (64 < batch_size)%Z && Qgtb model (1 # 2)
  then Raise (ValueError "loss is nan")
  else Ok ({[ "val_acc" := [1 # 2; model] ]}, model).

(** Sum of the weights of the samples selected by [sel]. *)
Fixpoint weight_where (sel : Z → bool → bool)
    (labels : list Z) (preds : list bool) (weights : list Q) : Q :=
  match labels, preds, weights with
  | y :: labels', p :: preds', w :: weights' =>
      ((if sel y p then w else 0) + weight_where sel labels' preds' weights')%Q
  | _, _, _ => 0%Q
  end.

Definition weights_or_ones (labels : list Z) (weights : option (list Q)) : list Q :=
  match weights with
  | Some ws => ws
  | None => replicate (length labels) 1%Q
  end.

Definition ratio (num den : Q) : Q :=
  if Qeq_bool den 0 then 0%Q else Qred (num / den).

Definition is_pos (y : Z) : bool := bool_decide (y = 1%Z).

Definition toy_accuracy (labels : list Z) (preds : list bool)
    (weights : option (list Q)) : result Q :=
  let ws := weights_or_ones labels weights in
  Ok (ratio (weight_where (λ y p, eqb (is_pos y) p) labels preds ws)
            (weight_where (λ _ _, true) labels preds ws)).

Definition toy_precision (labels : list Z) (preds : list bool)
    (weights : option (list Q)) : result Q :=
  let ws := weights_or_ones labels weights in
  Ok (ratio (weight_where (λ y p, is_pos y && p) labels preds ws)
            (weight_where (λ _ p, p) labels preds ws)).

Definition toy_recall (labels : list Z) (preds : list bool)
    (weights : option (list Q)) : result Q :=
  let ws := weights_or_ones labels weights in
  Ok (ratio (weight_where (λ y p, is_pos y && p) labels preds ws)
            (weight_where (λ y _, is_pos y) labels preds ws)).

(** A fraction printed as numerator/denominator, whatever the precision. *)
Definition show_Q (digits : nat) (q : Q) : string :=
  pretty (Qnum q) +:+ "/" +:+ pretty (Zpos (Qden q)).

Definition show_ints (l : list Z) : string :=
  "[" +:+ String.concat " " (map pretty l) +:+ "]".

Global Instance externals : Externals := {|
  RandomState := N;
  np_seed := λ n, n;
  random_raw := lcg;
  Tensor := list Q;
  Model := Q;
  tensor_shape := λ t, [Z.of_nat (length t); 1%Z];
  load_file := λ _ _, Ok dataset;
  build_model := λ _ _ _ dropout _ _, Ok (Qred ((1 # 4) + dropout / 2));
  fit := toy_fit;
  predict := λ model input, Ok input;
  accuracy_score := toy_accuracy;
  precision_score := toy_precision;
  recall_score := toy_recall;
  fmt_s := show_ints;
  fmt_f := show_Q;
|}.

Definition init_world : World := {|
  environ := {[ "SCRATCH" := "/scratch" ]};
  np_random := 7%N;
  queue := [];
  outcomes := ∅;
  fetched := [];
  files := ∅;
  stdout := [];
|}.

Definition small_config : Config := {|
  job_id := 24194075;
  n_train := 4; n_valid := 4; n_test := 4;
  input_dir := "/data";
  n_hpo_trials := 3;
  batch_size := 2;
  n_epochs := 2;
|}.

(** The same search with a batch size for which trial 1 fails. *)
Definition failing_config : Config := {|
  job_id := 24194075;
  n_train := 4; n_valid := 4; n_test := 4;
  input_dir := "/data";
  n_hpo_trials := 3;
  batch_size := 128;
  n_epochs := 2;
|}.

(** The run of cell 7 on [small_config] (and on [failing_config], which
    draws the same search points), and what follows it. *)
Definition no_samples : Samples := {|
  h1 := []; h2 := []; h3 := []; conv_sizes := []; fc_sizes := [];
  lr := []; dropout := []; optimizer := [];
|}.

Definition samples : Samples :=
  Eval vm_compute in
    match (cell7 small_config init_world).1 with
    | Ok (s, _) => s
    | Raise _ => no_samples
    end.

Definition checkpoint_dir : string :=
  Eval vm_compute in
    match (cell7 small_config init_world).1 with
    | Ok (_, dir) => dir
    | Raise _ => ""
    end.

Abbreviation seeded := ((cell7 small_config init_world).2).

Definition handles : list AsyncResult :=
  [ {| msg_id := 0 |}; {| msg_id := 1 |}; {| msg_id := 2 |} ].

Abbreviation after_dispatch :=
  ((dispatch_loop small_config samples checkpoint_dir seeded).2).

Abbreviation after_dispatch_failing :=
  ((dispatch_loop failing_config samples checkpoint_dir seeded).2).

(** The job of trial 1 under [failing_config]. *)
Definition failing_job : JobDescriptor :=
  job_descriptor failing_config
    {| hp_conv_sizes := [64; 32; 8]%Z; hp_fc_sizes := [256]%Z;
       hp_dropout := 8109050305557275 # 9007199254740992;
       hp_optimizer := "Nadam"; hp_lr := 1 # 1000 |}
    "/scratch/cori-interactive-dl/rpv_hpo_24194075/model_1.h5".

(** The artifacts and histories of the three trials under [small_config]. *)
Definition models : list Q :=
  [ 4029944510079283 # 9007199254740992;
    12612649932927771 # 18014398509481984;
    6931033727451293 # 18014398509481984 ].

Definition histories : list History :=
  (λ m, {[ "val_acc" := [1 # 2; m] ]}) <$> models.

Abbreviation after_collection :=
  ((result_collector handles (pool_run [2; 0] after_dispatch)).2).


(** A kernel whose scratch space holds a file where cell 7 creates the
    checkpoint directory. *)
Definition blocked_world : World := {|
  environ := {[ "SCRATCH" := "/scratch" ]};
  np_random := 7%N;
  queue := [];
  outcomes := ∅;
  fetched := [];
  files := {[ "/scratch/cori-interactive-dl/rpv_hpo_24194075" := 1%Q ]};
  stdout := [];
|}.

(** Arrays that hold the hyper-parameters of two trials only. *)
Definition short_samples : Samples := {|
  h1 := [4; 8]%Z; h2 := [16; 32]%Z; h3 := [64; 128]%Z;
  conv_sizes := [[4; 16; 64]; [8; 32; 128]]%Z;
  fc_sizes := [[32]; [64]]%Z;
  lr := [1 # 100; 1 # 1000];
  dropout := [1 # 4; 1 # 2];
  optimizer := ["Adam"; "Nadam"];
|}.

(** A history with the four metrics of Keras, over three epochs. *)
Definition full_history : History :=
  {[ "loss" := [9 # 10; 1 # 2; 2 # 5];
     "val_loss" := [1; 3 # 5; 1 # 2]%Q;
     "acc" := [1 # 2; 7 # 10; 4 # 5];
     "val_acc" := [1 # 2; 4 # 5; 3 # 4] ]}.

End Toy.

(** * Properties *)

(** ** Comparisons on scores *)

Lemma Qgtb_true x y : Qgtb x y = true ↔ (y < x)%Q.
Proof.
  unfold Qgtb. rewrite negb_true_iff, <- not_true_iff_false, Qle_bool_iff.
  split; [apply Qnot_le_lt | apply Qlt_not_le].
Qed.

Lemma Qgtb_false x y : Qgtb x y = false ↔ (x <= y)%Q.
Proof. unfold Qgtb. by rewrite negb_false_iff, Qle_bool_iff. Qed.

Lemma Qltb_Qgtb x y : Qltb x y = Qgtb y x.
Proof. done. Qed.

Lemma Qgtb_eq x y : (x == y)%Q → Qgtb x y = false.
Proof. intros H. apply Qgtb_false. rewrite H. apply Qle_refl. Qed.

(** ** The result monad on lists *)

Lemma mapM_result_Ok {A B} (f : A → result B) (l : list A) (k : list B) :
  mapM f l = Ok k ↔ Forall2 (λ x y, f x = Ok y) l k.
Proof.
  revert k. induction l as [|x l IH]; intros k; simpl.
  - split.
    + intros [= <-]. constructor.
    + by intros ->%Forall2_nil_inv_l.
  - split.
    + destruct (f x) as [y|e] eqn:Hx; simpl; [|done].
      destruct (mapM f l) as [k'|e] eqn:Hl; simpl; [|done].
      intros [= <-]. constructor; [done|]. by apply IH.
    + intros (y & k' & Hy & Hk & ->)%Forall2_cons_inv_l.
      apply IH in Hk. simpl. by rewrite Hy; simpl; rewrite Hk.
Qed.

Lemma mapM_result_total {A B} (f : A → result B) (l : list A) :
  Forall (λ x, is_Ok (f x)) l → is_Ok (mapM f l).
Proof.
  induction 1 as [|x l [y Hy] _ [k Hk]]; simpl.
  - by exists [].
  - exists (y :: k). by rewrite Hy; simpl; rewrite Hk.
Qed.

Lemma mapM_result_length {A B} (f : A → result B) (l : list A) (k : list B) :
  mapM f l = Ok k → length k = length l.
Proof. intros H%mapM_result_Ok. symmetry. by eapply Forall2_length. Qed.

(** ** [max], [argmax] and [argmin] *)

Lemma foldl_max_step_spec (l : list Q) (x : Q) :
  foldl max_step x l ∈ x :: l ∧
  (x <= foldl max_step x l)%Q ∧
  ∀ y, y ∈ l → (y <= foldl max_step x l)%Q.
Proof.
  revert x. induction l as [|z l IH]; intros x; simpl.
  - split_and!; [left | apply Qle_refl | by intros y ?%elem_of_nil].
  - destruct (IH (max_step x z)) as (Hin & Hle & Hall).
    assert ((x <= max_step x z)%Q ∧ (z <= max_step x z)%Q
            ∧ (max_step x z = x ∨ max_step x z = z)) as (Hx & Hz & Hcase).
    { unfold max_step. destruct (Qgtb z x) eqn:Hg.
      - apply Qgtb_true in Hg. split_and!; [by apply Qlt_le_weak | apply Qle_refl | by right].
      - apply Qgtb_false in Hg. split_and!; [apply Qle_refl | done | by left]. }
    split_and!.
    + apply elem_of_cons in Hin as [Heq|Hin].
      * rewrite Heq. destruct Hcase as [-> | ->]; [left | right; left].
      * by do 2 right.
    + by eapply Qle_trans.
    + intros y [->|Hy]%elem_of_cons; [by eapply Qle_trans | by apply Hall].
Qed.

Lemma py_max_spec (l : list Q) (m : Q) :
  py_max l = Ok m → m ∈ l ∧ ∀ y, y ∈ l → (y <= m)%Q.
Proof.
  destruct l as [|x l]; simpl; [done|]. intros [= <-].
  destruct (foldl_max_step_spec l x) as (Hin & Hle & Hall).
  split; [done|]. by intros y [->|Hy]%elem_of_cons; [|apply Hall].
Qed.

Lemma py_max_total (l : list Q) : l ≠ [] → is_Ok (py_max l).
Proof. destruct l; [done|]. intros _. by eexists. Qed.

Lemma argmax_from_spec (l : list Q) (i : nat) (mp : Q) (max_ind : nat) :
  (argmax_from l i mp max_ind = max_ind ∧ ∀ x, x ∈ l → (x <= mp)%Q) ∨
  (∃ k v, l !! k = Some v ∧ argmax_from l i mp max_ind = i + k ∧
          (mp < v)%Q ∧ ∀ x, x ∈ l → (x <= v)%Q).
Proof.
  revert i mp max_ind. induction l as [|x l IH]; intros i mp max_ind; simpl.
  { left. split; [done|]. by intros x ?%elem_of_nil. }
  destruct (Qgtb x mp) eqn:Hg.
  - apply Qgtb_true in Hg. right.
    destruct (IH (S i) x i) as [[-> Hall]|(k & v & Hk & -> & Hlt & Hall)].
    + exists 0, x. split_and!; [done | lia | done |].
      intros y [->|Hy]%elem_of_cons; [apply Qle_refl | by apply Hall].
    + exists (S k), v. split_and!; [done | lia | by eapply Qlt_trans |].
      intros y [->|Hy]%elem_of_cons; [by apply Qlt_le_weak | by apply Hall].
  - apply Qgtb_false in Hg.
    destruct (IH (S i) mp max_ind) as [[-> Hall]|(k & v & Hk & -> & Hlt & Hall)].
    + left. split; [done|].
      by intros y [->|Hy]%elem_of_cons; [|apply Hall].
    + right. exists (S k), v. split_and!; [done | lia | done |].
      intros y [->|Hy]%elem_of_cons; [|by apply Hall].
      apply Qlt_le_weak. by eapply Qle_lt_trans.
Qed.

Lemma argmax_spec (a : list Q) (r : nat) :
  argmax a = Ok r →
  ∃ v, a !! r = Some v ∧ ∀ j x, a !! j = Some x → (x <= v)%Q.
Proof.
  destruct a as [|x l]; simpl; [done|]. intros [= <-].
  destruct (argmax_from_spec l 1 x 0) as [[-> Hall]|(k & v & Hk & -> & Hlt & Hall)].
  - exists x. split; [done|]. intros [|j] y Hy; simplify_eq/=; [apply Qle_refl|].
    apply Hall. by eapply list_elem_of_lookup_2.
  - exists v. split; [done|]. intros [|j] y Hy; simplify_eq/=.
    + by apply Qlt_le_weak.
    + apply Hall. by eapply list_elem_of_lookup_2.
Qed.

Lemma argmin_from_spec (l : list Q) (i : nat) (mp : Q) (min_ind : nat) :
  (argmin_from l i mp min_ind = min_ind ∧ ∀ x, x ∈ l → (mp <= x)%Q) ∨
  (∃ k v, l !! k = Some v ∧ argmin_from l i mp min_ind = i + k ∧
          (v < mp)%Q ∧ ∀ x, x ∈ l → (v <= x)%Q).
Proof.
  revert i mp min_ind. induction l as [|x l IH]; intros i mp min_ind; simpl.
  { left. split; [done|]. by intros x ?%elem_of_nil. }
  rewrite Qltb_Qgtb. destruct (Qgtb mp x) eqn:Hg.
  - apply Qgtb_true in Hg. right.
    destruct (IH (S i) x i) as [[-> Hall]|(k & v & Hk & -> & Hlt & Hall)].
    + exists 0, x. split_and!; [done | lia | done |].
      intros y [->|Hy]%elem_of_cons; [apply Qle_refl | by apply Hall].
    + exists (S k), v. split_and!; [done | lia | by eapply Qlt_trans |].
      intros y [->|Hy]%elem_of_cons; [by apply Qlt_le_weak | by apply Hall].
  - apply Qgtb_false in Hg.
    destruct (IH (S i) mp min_ind) as [[-> Hall]|(k & v & Hk & -> & Hlt & Hall)].
    + left. split; [done|].
      by intros y [->|Hy]%elem_of_cons; [|apply Hall].
    + right. exists (S k), v. split_and!; [done | lia | done |].
      intros y [->|Hy]%elem_of_cons; [|by apply Hall].
      apply Qlt_le_weak. by eapply Qlt_le_trans.
Qed.

Lemma argmin_spec (a : list Q) (r : nat) :
  argmin a = Ok r →
  ∃ v, a !! r = Some v ∧ ∀ j x, a !! j = Some x → (v <= x)%Q.
Proof.
  destruct a as [|x l]; simpl; [done|]. intros [= <-].
  destruct (argmin_from_spec l 1 x 0) as [[-> Hall]|(k & v & Hk & -> & Hlt & Hall)].
  - exists x. split; [done|]. intros [|j] y Hy; simplify_eq/=; [apply Qle_refl|].
    apply Hall. by eapply list_elem_of_lookup_2.
  - exists v. split; [done|]. intros [|j] y Hy; simplify_eq/=.
    + by apply Qlt_le_weak.
    + apply Hall. by eapply list_elem_of_lookup_2.
Qed.

(** ** Model Selector *)

Lemma val_acc_lookup (h : History) (accs : list Q) :
  val_acc h = Ok accs ↔ h !! "val_acc" = Some accs.
Proof.
  unfold val_acc, dict_getitem. destruct (h !! "val_acc"); naive_solver.
Qed.

Lemma getitem_last_total {A} (l : list A) : l ≠ [] → is_Ok (getitem_last l).
Proof.
  intros Hl. unfold getitem_last. destruct (last l) eqn:Hlast; [by eexists|].
  by apply last_None in Hlast.
Qed.

(** What a successful run of the selector computed. *)
Lemma model_selector_Ok (histories : list History) (best worst : nat) :
  model_selector histories = Ok (best, worst) ↔
  ∃ lasts scores,
    last_scores histories = Ok lasts ∧ best_scores histories = Ok scores ∧
    argmax scores = Ok best ∧ argmin scores = Ok worst.
Proof.
  unfold model_selector. split.
  - destruct (last_scores histories) as [lasts|] eqn:Hl; simpl; [|done].
    destruct (best_scores histories) as [scores|] eqn:Hs; simpl; [|done].
    destruct (argmax scores) as [b|] eqn:Hb; simpl; [|done].
    destruct (argmin scores) as [w|] eqn:Hw; simpl; [|done].
    intros [= <- <-]. by exists lasts, scores.
  - intros (lasts & scores & -> & -> & Hb & Hw). simpl.
    by rewrite Hb; simpl; rewrite Hw.
Qed.

(** C1: on the four synthetic trials with validation accuracies
    [0.5,0.6], [0.5,0.9], [0.5,0.55] and [0.5,0.7] the per-trial scalars are
    the maxima 0.6, 0.9, 0.55, 0.7 and the selector reports trial 1 as the
    best and trial 2 as the worst, whatever the other metrics of the
    histories are. *)
Theorem synthetic_trials_best_1_worst_2 (hA hB hC hD : History) :
  hA !! "val_acc" = Some [1 # 2; 3 # 5] →
  hB !! "val_acc" = Some [1 # 2; 9 # 10] →
  hC !! "val_acc" = Some [1 # 2; 11 # 20] →
  hD !! "val_acc" = Some [1 # 2; 7 # 10] →
  best_scores [hA; hB; hC; hD] = Ok [3 # 5; 9 # 10; 11 # 20; 7 # 10] ∧
  model_selector [hA; hB; hC; hD] = Ok (1, 2).
Proof.
  intros HA HB HC HD.
  assert (best_scores [hA; hB; hC; hD] = Ok [3 # 5; 9 # 10; 11 # 20; 7 # 10]) as Hs.
  { unfold best_scores, val_acc, dict_getitem. simpl.
    by rewrite HA, HB, HC, HD. }
  split; [done|]. apply model_selector_Ok.
  exists [3 # 5; 9 # 10; 11 # 20; 7 # 10], [3 # 5; 9 # 10; 11 # 20; 7 # 10].
  split_and!; [|done..].
  unfold last_scores, val_acc, dict_getitem. simpl.
  by rewrite HA, HB, HC, HD.
Qed.

(** The four synthetic histories that carry nothing but [val_acc]. *)
Lemma synthetic_trials_witness :
  best_scores synthetic_histories = Ok [3 # 5; 9 # 10; 11 # 20; 7 # 10] ∧
  model_selector synthetic_histories = Ok (1, 2).
Proof.
  apply (synthetic_trials_best_1_worst_2
           (synthetic_history [1 # 2; 3 # 5]) (synthetic_history [1 # 2; 9 # 10])
           (synthetic_history [1 # 2; 11 # 20]) (synthetic_history [1 # 2; 7 # 10]));
    reflexivity.
Defined.

(** C2: for a non-empty list of histories, (a) the selector returns as
    soon as every history has at least one epoch of validation accuracy,
    and (b) whenever it returns (best, worst): the scalar of a trial is the
    maximum of its validation accuracies over the epochs, the scalar of
    [best] is at least, and the scalar of [worst] at most, the scalar of
    every index, and on a one-element list both indices are 0. *)
Theorem model_selector_extremes (histories : list History) :
  histories ≠ [] →
  (Forall (λ h : History, ∃ accs, h !! "val_acc" = Some accs ∧ accs ≠ []) histories →
   is_Ok (model_selector histories)) ∧
  (∀ best worst, model_selector histories = Ok (best, worst) →
   ∃ scores sb sw,
     best_scores histories = Ok scores ∧
     length scores = length histories ∧
     (∀ i (h : History), histories !! i = Some h →
        ∃ accs s, h !! "val_acc" = Some accs ∧ scores !! i = Some s ∧
                  s ∈ accs ∧ ∀ a, a ∈ accs → (a <= s)%Q) ∧
     scores !! best = Some sb ∧ scores !! worst = Some sw ∧
     (∀ j s, scores !! j = Some s → (s <= sb)%Q ∧ (sw <= s)%Q) ∧
     (length histories = 1 → best = 0 ∧ worst = 0)).
Proof.
  intros Hne. split.
  - intros Hall.
    destruct (mapM_result_total (λ h, val_acc h ≫= getitem_last) histories)
      as [lasts Hl].
    { eapply Forall_impl; [exact Hall|]. intros h (accs & Hh & Ha); simpl.
      apply val_acc_lookup in Hh. rewrite Hh. by apply getitem_last_total. }
    destruct (mapM_result_total (λ h, val_acc h ≫= py_max) histories)
      as [scores Hs].
    { eapply Forall_impl; [exact Hall|]. intros h (accs & Hh & Ha); simpl.
      apply val_acc_lookup in Hh. rewrite Hh. by apply py_max_total. }
    assert (scores ≠ []) as Hsne.
    { apply mapM_result_length in Hs. destruct scores, histories; naive_solver. }
    destruct scores as [|s scores]; [done|].
    eexists (_, _). apply model_selector_Ok. by exists lasts, (s :: scores).
  - intros best worst (lasts & scores & Hl & Hs & Hb & Hw)%model_selector_Ok.
    destruct (argmax_spec _ _ Hb) as (sb & Hsb & Hmax).
    destruct (argmin_spec _ _ Hw) as (sw & Hsw & Hmin).
    exists scores, sb, sw.
    pose proof (mapM_result_length _ _ _ Hs) as Hlen.
    split_and!; [done..| | done | done | |].
    + intros i h Hi. apply mapM_result_Ok in Hs.
      destruct (Forall2_lookup_l _ _ _ _ _ Hs Hi) as (s & Hsi & Hh).
      simpl in Hh. destruct (val_acc h) as [accs|] eqn:Hv; simpl in Hh; [|done].
      apply val_acc_lookup in Hv. apply py_max_spec in Hh as [Hin Hle].
      by exists accs, s.
    + intros j s Hj. split; [by eapply Hmax | by eapply Hmin].
    + intros H1. rewrite <- Hlen in H1.
      apply lookup_lt_Some in Hsb, Hsw. lia.
Qed.

(** On the synthetic histories: the selector returns, and trials 1 and 2
    bound every scalar from above and from below. *)
Lemma model_selector_extremes_witness :
  is_Ok (model_selector synthetic_histories) ∧
  ∃ scores sb sw,
    best_scores synthetic_histories = Ok scores ∧
    scores !! 1 = Some sb ∧ scores !! 2 = Some sw ∧
    ∀ j s, scores !! j = Some s → (s <= sb)%Q ∧ (sw <= s)%Q.
Proof.
  assert (synthetic_histories ≠ []) as Hne by done.
  destruct (model_selector_extremes synthetic_histories Hne) as [Htot Hpart].
  split.
  - apply Htot. unfold synthetic_histories, synthetic_history.
    repeat constructor; eexists; (split; [reflexivity | done]).
  - destruct (Hpart 1 2) as (scores & sb & sw & ? & ? & ? & ? & ? & ? & ?);
      [reflexivity|].
    by exists scores, sb, sw.
Defined.

(** ** Strings, ['%i'] and [os.path.join] *)

Lemma string_app_cons a s t : String a s +:+ t = String a (s +:+ t).
Proof. done. Qed.

Lemma string_length_app s t :
  String.length (s +:+ t) = String.length s + String.length t.
Proof.
  induction s as [|a s IH]; [done|].
  rewrite string_app_cons. simpl. by rewrite IH.
Qed.

Lemma string_app_inj_r s1 s2 t : s1 +:+ t = s2 +:+ t → s1 = s2.
Proof.
  revert s2. induction s1 as [|a s1 IH]; intros [|b s2] Heq; [done| | |].
  - apply (f_equal String.length) in Heq.
    rewrite !string_length_app in Heq. simpl in Heq. lia.
  - apply (f_equal String.length) in Heq.
    rewrite !string_length_app in Heq. simpl in Heq. lia.
  - rewrite !string_app_cons in Heq. injection Heq as -> Heq.
    f_equal. by apply IH.
Qed.

Lemma last_char_None s : last_char s = None ↔ s = "".
Proof.
  induction s as [|a s IH]; [done|]. simpl.
  destruct s; [done|]. split; [|done]. intros H. by apply IH in H.
Qed.

Lemma last_char_app s t : t ≠ "" → last_char (s +:+ t) = last_char t.
Proof.
  intros Ht. induction s as [|a s IH]; [done|].
  rewrite string_app_cons, <- IH. simpl.
  destruct (s +:+ t) eqn:Hst; [|done].
  apply (f_equal String.length) in Hst. rewrite string_length_app in Hst.
  destruct t; [done|]. simpl in Hst. lia.
Qed.

Lemma pretty_N_go_last (x : N) (s : string) :
  s ≠ "" → last_char (pretty_N_go x s) = last_char s.
Proof.
  revert s. induction (N.lt_wf_0 x) as [x _ IH]; intros s Hs.
  destruct (decide (x = 0%N)) as [->|Hx]; [by rewrite pretty_N_go_0|].
  rewrite pretty_N_go_step by lia.
  rewrite IH; [|apply N.div_lt; lia|done].
  simpl. by destruct s.
Qed.

Lemma pretty_N_char_not_sep (x : N) : pretty_N_char x ≠ "/"%char.
Proof. unfold pretty_N_char. by repeat case_match. Qed.

Lemma pretty_N_last (x : N) :
  ∃ c, last_char (pretty x) = Some c ∧ c ≠ "/"%char.
Proof.
  unfold pretty, pretty_N. case_decide as Hx.
  - by exists "0"%char.
  - exists (pretty_N_char (x `mod` 10)).
    split; [|apply pretty_N_char_not_sep].
    rewrite pretty_N_go_step by lia. by rewrite pretty_N_go_last.
Qed.

(** The decimal form of an integer ends with a digit. *)
Lemma fmt_i_last (z : Z) : ∃ c, last_char (fmt_i z) = Some c ∧ c ≠ "/"%char.
Proof.
  destruct z as [|p|p].
  - by exists "0"%char.
  - apply (pretty_N_last (N.pos p)).
  - destruct (pretty_N_last (N.pos p)) as (c & Hc & Hne).
    exists c. split; [|done].
    change (fmt_i (Z.neg p)) with ("-" +:+ pretty (N.pos p)).
    rewrite last_char_app; [done|].
    intros Hnil%last_char_None. congruence.
Qed.

Lemma path_join_relative (a b : string) :
  starts_with_sep b = false →
  path_join a b = a +:+ (if bool_decide (a = "") || ends_with_sep a
                         then "" else "/") +:+ b.
Proof.
  intros Hb. unfold path_join. rewrite Hb.
  by destruct (bool_decide (a = "") || ends_with_sep a).
Qed.

Lemma path_join_inj (a b1 b2 : string) :
  starts_with_sep b1 = false → starts_with_sep b2 = false →
  path_join a b1 = path_join a b2 → b1 = b2.
Proof.
  intros H1 H2. rewrite !path_join_relative by done.
  intros Heq. by do 2 apply (inj (String.app _)) in Heq.
Qed.

(** No two trial indices share a checkpoint path. *)
Lemma checkpoint_name_inj (i j : nat) :
  "model_" +:+ fmt_i_nat i +:+ ".h5" = "model_" +:+ fmt_i_nat j +:+ ".h5" → i = j.
Proof.
  intros Heq. apply (inj (String.app _)) in Heq.
  apply string_app_inj_r in Heq. by apply (inj pretty) in Heq.
Qed.

(** The checkpoint directory of cell 7 is not empty and does not end with
    a separator. *)
Lemma checkpoint_dir_of_last (scratch : string) (job_id : Z) :
  checkpoint_dir_of scratch job_id ≠ "" ∧
  ends_with_sep (checkpoint_dir_of scratch job_id) = false.
Proof.
  destruct (fmt_i_last job_id) as (c & Hc & Hne).
  assert (last_char (checkpoint_dir_of scratch job_id) = Some c) as Hlast.
  { unfold checkpoint_dir_of. rewrite path_join_relative by done.
    assert (fmt_i job_id ≠ "") as Hnil by (intros Hnil%last_char_None; congruence).
    rewrite !last_char_app; try done.
    intros H. apply (f_equal String.length) in H.
    rewrite !string_length_app in H. simpl in H. lia. }
  split.
  - intros Hnil%last_char_None. congruence.
  - unfold ends_with_sep. rewrite Hlast. by apply bool_decide_eq_false.
Qed.

Section properties.
Context {E : Externals}.
Implicit Types (w : World) (jd : JobDescriptor) (ar : AsyncResult).

(** ** Running cells *)

Lemma bind_run {A B} (m : M A) (f : A → M B) w :
  (m ≫= f) w =
  match m w with
  | (Ok a, w') => f a w'
  | (Raise e, w') => (Raise e, w')
  end.
Proof. done. Qed.

Ltac run_cell :=
  unfold mbind, M_bind, mret, M_ret, lift, print; cbn beta iota.

Lemma with_np_random_twice s s' w :
  with_np_random s' (with_np_random s w) = with_np_random s' w.
Proof. done. Qed.

(** Run the first command of a sequence, whose run is given by [H]. *)
Ltac step H :=
  rewrite bind_run, H; cbn beta iota; rewrite ?with_np_random_twice.

Lemma with_stdout_nil w : with_stdout (stdout w ++ []) w = w.
Proof. destruct w. unfold with_stdout; simpl. by rewrite app_nil_r. Qed.

Lemma with_stdout_app w l1 l2 :
  with_stdout (stdout (with_stdout (stdout w ++ l1) w) ++ l2)
    (with_stdout (stdout w ++ l1) w)
  = with_stdout (stdout w ++ (l1 ++ l2)) w.
Proof. unfold with_stdout; simpl. by rewrite app_assoc. Qed.

(** ** Evaluator *)

(** The metric summary returns the same result and prints the same lines
    from every world, and touches nothing but the console. *)
Lemma summarize_metrics_run labels outputs threshold weights :
  ∃ r report, ∀ w,
    summarize_metrics labels outputs threshold weights w
    = (r, with_stdout (stdout w ++ report) w).
Proof.
  unfold summarize_metrics. cbv zeta.
  destruct (accuracy_score labels (preds outputs threshold) weights) as [a|e].
  2: { exists (Raise e), []. intros w. run_cell. by rewrite with_stdout_nil. }
  destruct (precision_score labels (preds outputs threshold) weights) as [p|e].
  2: { exists (Raise e), ["Accuracy:   " +:+ fmt_f 4 a]. intros w. by run_cell. }
  destruct (recall_score labels (preds outputs threshold) weights) as [r|e].
  2: { exists (Raise e),
         ["Accuracy:   " +:+ fmt_f 4 a; "Purity:     " +:+ fmt_f 4 p].
       intros w. run_cell. f_equal. apply (with_stdout_app w [_] [_]). }
  exists (Ok ()),
    ["Accuracy:   " +:+ fmt_f 4 a; "Purity:     " +:+ fmt_f 4 p;
     "Efficiency: " +:+ fmt_f 4 r].
  intros w. run_cell. f_equal.
  rewrite (with_stdout_app w [_] [_]). apply (with_stdout_app w [_; _] [_]).
Qed.

(** C8: the metric summary run twice in a row on the same labels, outputs,
    threshold and weights gives the same result and prints the same report
    lines both times; neither run changes the checkpoint files, the random
    state, the pool or the environment, and the result is the same from
    every other state of the kernel. *)
Theorem summarize_metrics_idempotent labels outputs threshold weights w :
  let run1 := summarize_metrics labels outputs threshold weights w in
  let run2 := summarize_metrics labels outputs threshold weights run1.2 in
  run2.1 = run1.1 ∧
  (∃ report, stdout run1.2 = stdout w ++ report ∧
             stdout run2.2 = stdout run1.2 ++ report) ∧
  files run2.2 = files w ∧ np_random run2.2 = np_random w ∧
  queue run2.2 = queue w ∧ outcomes run2.2 = outcomes w ∧
  fetched run2.2 = fetched w ∧ environ run2.2 = environ w ∧
  ∀ w', (summarize_metrics labels outputs threshold weights w').1 = run1.1.
Proof.
  destruct (summarize_metrics_run labels outputs threshold weights)
    as (r & report & Hrun).
  simpl. rewrite (Hrun w); simpl. rewrite Hrun; simpl.
  split_and!; try done; [by exists report|].
  intros w'. by rewrite Hrun.
Qed.

Lemma preds_lookup outputs threshold i :
  preds outputs threshold !! i = (λ o, Qgtb o threshold) <$> outputs !! i.
Proof. unfold preds. apply list_lookup_fmap. Qed.

Lemma preds_insert_negative outputs threshold i o o' :
  outputs !! i = Some o → Qgtb o threshold = false → Qgtb o' threshold = false →
  preds (<[i := o']> outputs) threshold = preds outputs threshold.
Proof.
  intros Hi Ho Ho'. apply list_eq. intros j. rewrite !preds_lookup.
  destruct (decide (i = j)) as [<-|Hne].
  - rewrite list_lookup_insert_eq by by eapply lookup_lt_Some.
    rewrite Hi. simpl. by rewrite Ho, Ho'.
  - by rewrite list_lookup_insert_ne.
Qed.

(** C10: an output equal to the threshold is a negative prediction, for
    every threshold and whatever the sample weights are; the summary, with
    or without weights, is the one obtained when that output is replaced by
    any value not above the threshold. *)
Theorem threshold_comparison_strict labels outputs threshold weights i o :
  outputs !! i = Some o → (o == threshold)%Q →
  preds outputs threshold !! i = Some false ∧
  ∀ o', (o' <= threshold)%Q →
    summarize_metrics labels (<[i := o']> outputs) threshold weights
    = summarize_metrics labels outputs threshold weights.
Proof.
  intros Hi Ho. apply Qgtb_eq in Ho. split.
  - rewrite preds_lookup, Hi. simpl. by rewrite Ho.
  - intros o' Ho'%Qgtb_false. unfold summarize_metrics.
    by rewrite (preds_insert_negative _ _ _ _ _ Hi Ho Ho').
Qed.

(** ** np.random and the Sample Generator *)

Lemma random_draw_run w :
  ∃ x s, random_draw w = (Ok x, with_np_random s w) ∧ (x < 2 ^ 32)%N.
Proof.
  unfold random_draw. destruct (random_raw (np_random w)) as [x s].
  exists (x `mod` 2 ^ 32)%N, s. split; [done|]. by apply N.mod_lt.
Qed.

Lemma randint_run (n : nat) w :
  0 < n → ∃ i s, randint n w = (Ok i, with_np_random s w) ∧ i < n.
Proof.
  intros Hn. destruct (random_draw_run w) as (x & s & Hx & _).
  exists (N.to_nat (x `mod` N.of_nat n)), s.
  unfold randint. step Hx. split; [done|].
  pose proof (N.mod_lt x (N.of_nat n)). lia.
Qed.

Lemma shiftr_lt (x : N) (k m : N) : (x < 2 ^ (m + k) → N.shiftr x k < 2 ^ m)%N.
Proof.
  intros Hx. rewrite N.shiftr_div_pow2.
  apply N.Div0.div_lt_upper_bound. by rewrite <- N.pow_add_r, (N.add_comm k m).
Qed.

Lemma random_sample_run w :
  ∃ q s, random_sample w = (Ok q, with_np_random s w) ∧ (0 <= q)%Q ∧ (q < 1)%Q.
Proof.
  destruct (random_draw_run w) as (a & s1 & Ha & Hla).
  destruct (random_draw_run (with_np_random s1 w)) as (b & s2 & Hb & Hlb).
  eexists _, s2. unfold random_sample. step Ha. step Hb.
  split; [done|].
  pose proof (shiftr_lt a 5 27 Hla) as Ha5.
  pose proof (shiftr_lt b 6 26 Hlb) as Hb6.
  change (2 ^ 27)%N with 134217728%N in Ha5.
  change (2 ^ 26)%N with 67108864%N in Hb6.
  unfold Qle, Qlt; simpl. lia.
Qed.

Lemma repeatM_run {A} (m : M A) (P : A → Prop) :
  (∀ w, ∃ x s, m w = (Ok x, with_np_random s w) ∧ P x) →
  ∀ n w, ∃ l s,
    repeatM n m w = (Ok l, with_np_random s w) ∧ length l = n ∧ Forall P l.
Proof.
  intros Hm n. induction n as [|n IH]; intros w; simpl.
  - exists [], (np_random w). split; [by destruct w|]. by split.
  - destruct (Hm w) as (x & s1 & Hx & HP).
    destruct (IH (with_np_random s1 w)) as (l & s2 & Hl & Hlen & Hall).
    exists (x :: l), s2. step Hx. step Hl.
    split_and!; [done | by rewrite <- Hlen | by constructor].
Qed.

Lemma mapM_getitem {A} (a : list A) (idx : list nat) :
  Forall (λ i, i < length a) idx →
  ∃ l, mapM (getitem a) idx = Ok l ∧ length l = length idx ∧ Forall (.∈ a) l.
Proof.
  intros Hidx.
  destruct (mapM_result_total (getitem a) idx) as [l Hl].
  { eapply Forall_impl; [exact Hidx|]. intros i Hi; simpl.
    unfold getitem. destruct (lookup_lt_is_Some_2 a i Hi) as [x ->]. by eexists. }
  exists l. split_and!; [done | by eapply mapM_result_length |].
  apply mapM_result_Ok in Hl. apply list.Forall_forall. intros x Hx.
  apply list_elem_of_lookup in Hx as [j Hj].
  destruct (Forall2_lookup_r _ _ _ _ _ Hl Hj) as (i & _ & Hi).
  unfold getitem in Hi. destruct (a !! i) eqn:Hai; [|done].
  injection Hi as ->. by eapply list_elem_of_lookup_2.
Qed.

Lemma choice_run {A} (a : list A) (size : nat) w :
  a ≠ [] →
  ∃ l s, choice a size w = (Ok l, with_np_random s w) ∧
         length l = size ∧ Forall (.∈ a) l.
Proof.
  intros Ha.
  destruct (repeatM_run (randint (length a)) (λ i, i < length a)) with size w
    as (idx & s & Hidx & Hlen & Hall).
  { intros w'. apply randint_run. destruct a; [done|simpl; lia]. }
  destruct (mapM_getitem a idx Hall) as (l & Hl & Hlen' & Hin).
  exists l, s. split_and!; [|congruence|done].
  unfold choice. destruct a as [|x a]; [done|].
  step Hidx. unfold lift. by rewrite Hl.
Qed.

Lemma choice_2d_run {A} (a : list A) (rows cols : nat) w :
  a ≠ [] →
  ∃ l s, choice_2d a rows cols w = (Ok l, with_np_random s w) ∧
         length l = rows ∧
         Forall (λ row, length row = cols ∧ Forall (.∈ a) row) l.
Proof.
  intros Ha. unfold choice_2d.
  apply (repeatM_run (choice a cols)
           (λ row, length row = cols ∧ Forall (.∈ a) row)).
  intros w'. destruct (choice_run a cols w' Ha) as (l & s & ? & ? & ?).
  by exists l, s.
Qed.

Lemma rand_run (n : nat) w :
  ∃ l s, rand n w = (Ok l, with_np_random s w) ∧
         length l = n ∧ Forall (λ q, (0 <= q)%Q ∧ (q < 1)%Q) l.
Proof.
  unfold rand. apply (repeatM_run random_sample (λ q, (0 <= q)%Q ∧ (q < 1)%Q)).
  intros w'. destruct (random_sample_run w') as (q & s & ? & ? & ?).
  by exists q, s.
Qed.

Lemma stack_axis1_three (a b c : list Z) :
  length b = length a → length c = length a →
  stack_axis1 [a; b; c]
  = Ok (map (λ i, [a !!! i; b !!! i; c !!! i]) (seq 0 (length a))).
Proof.
  intros Hb Hc. unfold stack_axis1. simpl.
  by rewrite Hb, Hc, Nat.eqb_refl.
Qed.

Lemma sample_at_Ok (s : Samples) (i : nat) (hp : HyperparameterSample) :
  sample_at s i = Ok hp ↔
  conv_sizes s !! i = Some (hp_conv_sizes hp) ∧
  fc_sizes s !! i = Some (hp_fc_sizes hp) ∧
  dropout s !! i = Some (hp_dropout hp) ∧
  optimizer s !! i = Some (hp_optimizer hp) ∧
  lr s !! i = Some (hp_lr hp).
Proof.
  unfold sample_at, getitem. split.
  - destruct (conv_sizes s !! i); simpl; [|done].
    destruct (fc_sizes s !! i); simpl; [|done].
    destruct (dropout s !! i); simpl; [|done].
    destruct (optimizer s !! i); simpl; [|done].
    destruct (lr s !! i); simpl; [|done].
    by intros [= <-].
  - intros (-> & -> & -> & -> & ->). simpl. by destruct hp.
Qed.

Lemma sample_at_is_Ok (s : Samples) (i : nat) :
  is_Ok (sample_at s i) ↔
  i < length (conv_sizes s) ∧ i < length (fc_sizes s) ∧
  i < length (dropout s) ∧ i < length (optimizer s) ∧ i < length (lr s).
Proof.
  split.
  - intros [hp (? & ? & ? & ? & ?)%sample_at_Ok].
    split_and!; by eapply lookup_lt_Some.
  - intros (Hc & Hf & Hd & Ho & Hl).
    apply lookup_lt_is_Some_2 in Hc as [cs Hc], Hf as [fs Hf], Hd as [d Hd],
      Ho as [o Ho], Hl as [l Hl].
    exists {| hp_conv_sizes := cs; hp_fc_sizes := fs; hp_dropout := d;
              hp_optimizer := o; hp_lr := l |}.
    by apply sample_at_Ok.
Qed.

(** The generator never raises and changes nothing but the random state;
    every array has [n] entries drawn from its candidates. *)
Lemma sample_generator_run (n : nat) w :
  ∃ s st, sample_generator n w = (Ok s, with_np_random st w) ∧
    (length (h1 s) = n ∧ Forall (.∈ [4; 8; 16; 32; 64]%Z) (h1 s)) ∧
    (length (h2 s) = n ∧ Forall (.∈ [4; 8; 16; 32; 64]%Z) (h2 s)) ∧
    (length (h3 s) = n ∧ Forall (.∈ [8; 16; 32; 64; 128]%Z) (h3 s)) ∧
    conv_sizes s = map (λ i, [h1 s !!! i; h2 s !!! i; h3 s !!! i]) (seq 0 n) ∧
    (length (fc_sizes s) = n ∧
     Forall (λ row, length row = 1 ∧ Forall (.∈ [32; 64; 128; 256]%Z) row)
       (fc_sizes s)) ∧
    (length (lr s) = n ∧ Forall (.∈ [1 # 10000; 1 # 1000; 1 # 100]) (lr s)) ∧
    (length (dropout s) = n ∧
     Forall (λ q, (0 <= q)%Q ∧ (q < 1)%Q) (dropout s)) ∧
    (length (optimizer s) = n ∧
     Forall (.∈ ["Adadelta"; "Adam"; "Nadam"]) (optimizer s)).
Proof.
  unfold sample_generator.
  destruct (choice_run [4; 8; 16; 32; 64]%Z n w) as (a & s1 & Ha & Hla & Hia);
    [done|].
  destruct (choice_run [4; 8; 16; 32; 64]%Z n (with_np_random s1 w))
    as (b & s2 & Hb & Hlb & Hib); [done|].
  destruct (choice_run [8; 16; 32; 64; 128]%Z n (with_np_random s2 w))
    as (c & s3 & Hc & Hlc & Hic); [done|].
  destruct (choice_2d_run [32; 64; 128; 256]%Z n 1 (with_np_random s3 w))
    as (f & s4 & Hf & Hlf & Hif); [done|].
  destruct (choice_run [1 # 10000; 1 # 1000; 1 # 100] n (with_np_random s4 w))
    as (l & s5 & Hl & Hll & Hil); [done|].
  destruct (rand_run n (with_np_random s5 w)) as (d & s6 & Hd & Hld & Hid).
  destruct (choice_run ["Adadelta"; "Adam"; "Nadam"] n (with_np_random s6 w))
    as (o & s7 & Ho & Hlo & Hio); [done|].
  eexists _, s7.
  step Ha. step Hb. step Hc.
  rewrite bind_run. unfold lift at 1.
  rewrite stack_axis1_three by congruence. cbn beta iota.
  step Hf. step Hl. step Hd. step Ho.
  split; [done|]. simpl. rewrite Hla. by split_and!.
Qed.

Lemma sample_generator_lengths (n : nat) w :
  ∃ s st, sample_generator n w = (Ok s, with_np_random st w) ∧
          ∀ i, is_Ok (sample_at s i) ↔ i < n.
Proof.
  destruct (sample_generator_run n w)
    as (s & st & Hrun & _ & _ & _ & Hconv
        & [Hlf _] & [Hll _] & [Hld _] & [Hlo _]).
  exists s, st. split; [done|]. intros i. rewrite sample_at_is_Ok.
  rewrite Hconv, length_map, length_seq. lia.
Qed.

(** C5: for every trial count [n] the Sample Generator returns arrays
    that hold exactly [n] hyper-parameter tuples (a tuple exists at index
    [i] iff [i < n]), and every field of every tuple lies in its candidate
    set: the three convolution widths in {4,8,16,32,64}, {4,8,16,32,64} and
    {8,16,32,64,128}, the fully-connected width in {32,64,128,256}, the
    learning rate in {0.0001,0.001,0.01}, the optimizer in
    {Adadelta,Adam,Nadam} and the dropout rate in [0,1). *)
Theorem sample_generator_in_range (n : nat) w :
  ∃ s w', sample_generator n w = (Ok s, w') ∧
    (length (conv_sizes s) = n ∧ length (fc_sizes s) = n ∧
     length (lr s) = n ∧ length (dropout s) = n ∧ length (optimizer s) = n) ∧
    (∀ i, is_Ok (sample_at s i) ↔ i < n) ∧
    ∀ i hp, sample_at s i = Ok hp →
      (∃ c1 c2 c3, hp_conv_sizes hp = [c1; c2; c3] ∧
         c1 ∈ [4; 8; 16; 32; 64]%Z ∧ c2 ∈ [4; 8; 16; 32; 64]%Z ∧
         c3 ∈ [8; 16; 32; 64; 128]%Z) ∧
      (∃ f, hp_fc_sizes hp = [f] ∧ f ∈ [32; 64; 128; 256]%Z) ∧
      hp_lr hp ∈ [1 # 10000; 1 # 1000; 1 # 100] ∧
      hp_optimizer hp ∈ ["Adadelta"; "Adam"; "Nadam"] ∧
      (0 <= hp_dropout hp)%Q ∧ (hp_dropout hp < 1)%Q.
Proof.
  destruct (sample_generator_run n w)
    as (s & st & Hrun & [Hl1 Hi1] & [Hl2 Hi2] & [Hl3 Hi3] & Hconv
        & [Hlf Hif] & [Hll Hil] & [Hld Hid] & [Hlo Hio]).
  assert (length (conv_sizes s) = n) as Hlc.
  { by rewrite Hconv, length_map, length_seq. }
  exists s, (with_np_random st w). split_and!; try done.
  - intros i. rewrite sample_at_is_Ok. lia.
  - intros i hp (Hc & Hf & Hd & Ho & Hl)%sample_at_Ok.
    assert (i < n) as Hi by (apply lookup_lt_Some in Hc; lia).
    split_and!.
    + rewrite Hconv, list_lookup_fmap, lookup_seq_lt in Hc by done.
      injection Hc as <-. simpl.
      eexists _, _, _. split; [done|].
      rewrite list.Forall_forall in Hi1, Hi2, Hi3.
      split_and!; [apply Hi1 | apply Hi2 | apply Hi3];
        apply list_elem_of_lookup_total_2; lia.
    + rewrite list.Forall_forall in Hif.
      destruct (Hif (hp_fc_sizes hp)) as [Hlen Hin];
        [by eapply list_elem_of_lookup_2|].
      destruct (hp_fc_sizes hp) as [|f [|??]]; simplify_eq/=.
      exists f. split; [done|]. by apply Forall_inv in Hin.
    + rewrite list.Forall_forall in Hil. apply Hil.
      by eapply list_elem_of_lookup_2.
    + rewrite list.Forall_forall in Hio. apply Hio.
      by eapply list_elem_of_lookup_2.
    + rewrite list.Forall_forall in Hid.
      by apply (Hid (hp_dropout hp)); eapply list_elem_of_lookup_2.
    + rewrite list.Forall_forall in Hid.
      by apply (Hid (hp_dropout hp)); eapply list_elem_of_lookup_2.
Qed.

(** ** Dispatch Loop *)

Lemma dispatched_nil w : dispatched w [] [] = w.
Proof. destruct w. unfold dispatched, with_stdout, with_queue; simpl.
  by rewrite !app_nil_r. Qed.

Lemma dispatched_cons w jd line jobs lines :
  dispatched (dispatched w [jd] [line]) jobs lines
  = dispatched w (jd :: jobs) (line :: lines).
Proof.
  unfold dispatched, with_stdout, with_queue; simpl.
  by rewrite <- !app_assoc.
Qed.

Lemma checkpoint_file_inj (dir : string) (i j : nat) :
  checkpoint_file dir i = checkpoint_file dir j → i = j.
Proof.
  unfold checkpoint_file. intros Heq%path_join_inj; [|done..].
  by apply checkpoint_name_inj.
Qed.

Lemma dispatch_body_run cfg s dir ihp results w :
  dispatch_body cfg s dir ihp results w =
  match sample_at s ihp with
  | Ok hp =>
      (Ok (results ++ [ {| msg_id := length (queue w) |} ]),
       dispatched w [job_descriptor cfg hp (checkpoint_file dir ihp)]
         [trial_line ihp hp])
  | Raise e => (Raise e, w)
  end.
Proof.
  unfold dispatch_body. rewrite bind_run. unfold lift.
  by destruct (sample_at s ihp).
Qed.

Lemma dispatch_from cfg s dir (k : nat) : ∀ (a : nat) acc w,
  ∃ r jobs lines,
    for_each (seq a k) (dispatch_body cfg s dir) acc w
    = (r, dispatched w jobs lines) ∧
    length jobs ≤ k ∧
    (∀ i jd, jobs !! i = Some jd →
       ∃ hp, sample_at s (a + i) = Ok hp ∧
             jd = job_descriptor cfg hp (checkpoint_file dir (a + i))) ∧
    (∀ results, r = Ok results →
       length jobs = k ∧
       results = acc ++ ((λ i, {| msg_id := length (queue w) + i |}) <$> seq 0 k)) ∧
    ((∀ i, i < k → is_Ok (sample_at s (a + i))) → is_Ok r).
Proof.
  induction k as [|k IH]; intros a acc w.
  - exists (Ok acc), [], []. simpl. rewrite dispatched_nil.
    split_and!; [done | done | done | | by eexists].
    intros results [= <-]. by rewrite app_nil_r.
  - cbn [seq for_each]. rewrite bind_run, dispatch_body_run.
    destruct (sample_at s a) as [hp|e] eqn:Hhp.
    + destruct (IH (S a) (acc ++ [ {| msg_id := length (queue w) |} ])
                  (dispatched w [job_descriptor cfg hp (checkpoint_file dir a)]
                     [trial_line a hp]))
        as (r & jobs & lines & Hrun & Hlen & Hjobs & Hres & Htot).
      exists r, (job_descriptor cfg hp (checkpoint_file dir a) :: jobs),
        (trial_line a hp :: lines).
      rewrite Hrun, dispatched_cons. split_and!; [done | simpl; lia | | |].
      * intros [|i] jd Hi; simplify_eq/=.
        -- exists hp. by rewrite Nat.add_0_r.
        -- destruct (Hjobs i jd Hi) as (hp' & Hhp' & ->).
           exists hp'. by rewrite <- Nat.add_succ_comm.
      * intros results Hr. destruct (Hres results Hr) as [Hl ->].
        split; [simpl; lia|]. rewrite <- app_assoc. f_equal. simpl.
        rewrite Nat.add_0_r. f_equal. rewrite <- fmap_S_seq, <- list_fmap_compose.
        apply list_fmap_ext. intros _ i _. simpl.
        rewrite length_app. simpl. f_equal. lia.
      * intros Hall. apply Htot. intros i Hi.
        rewrite Nat.add_succ_comm. apply Hall. lia.
    + exists (Raise e), [], []. rewrite dispatched_nil.
      split_and!; [done | simpl; lia | done | done |].
      intros Hall. destruct (Hall 0) as [hp Hhp']; [lia|].
      rewrite Nat.add_0_r in Hhp'. congruence.
Qed.

(** What the loop did: it queued [jobs] (trial [i] with the checkpoint
    path of index [i]) and printed one line per job; it completes exactly
    when every trial has its hyper-parameters, with one handle per trial. *)
Lemma dispatch_loop_run cfg s dir w :
  ∃ r jobs lines,
    dispatch_loop cfg s dir w = (r, dispatched w jobs lines) ∧
    length jobs ≤ n_hpo_trials cfg ∧
    (∀ i jd, jobs !! i = Some jd →
       ∃ hp, sample_at s i = Ok hp ∧
             jd = job_descriptor cfg hp (checkpoint_file dir i)) ∧
    (∀ results, r = Ok results →
       length jobs = n_hpo_trials cfg ∧
       results = (λ i, {| msg_id := length (queue w) + i |})
                 <$> seq 0 (n_hpo_trials cfg)) ∧
    ((∀ i, i < n_hpo_trials cfg → is_Ok (sample_at s i)) → is_Ok r).
Proof. apply (dispatch_from cfg s dir (n_hpo_trials cfg) 0 [] w). Qed.

Lemma dispatch_paths_NoDup cfg s dir (jobs : list JobDescriptor) :
  (∀ i jd, jobs !! i = Some jd →
     ∃ hp, sample_at s i = Ok hp ∧
           jd = job_descriptor cfg hp (checkpoint_file dir i)) →
  NoDup (jd_checkpoint_file <$> jobs).
Proof.
  intros Hjobs. apply NoDup_alt. intros i j p Hi Hj.
  rewrite list_lookup_fmap in Hi, Hj.
  destruct (jobs !! i) as [jdi|] eqn:Hjdi; [|done].
  destruct (jobs !! j) as [jdj|] eqn:Hjdj; [|done].
  destruct (Hjobs i jdi Hjdi) as (hpi & _ & ->).
  destruct (Hjobs j jdj Hjdj) as (hpj & _ & ->).
  simpl in Hi, Hj. simplify_eq. by eapply checkpoint_file_inj.
Qed.

(** C3: for every checkpoint directory, distinct trial indices have
    distinct checkpoint paths; the jobs the Dispatch Loop submits carry the
    paths of their positions, so the paths of the submitted jobs are
    pairwise distinct, and there are as many as trials when the loop
    completes. *)
Theorem checkpoint_paths_distinct cfg s dir w :
  (∀ i j, i ≠ j → checkpoint_file dir i ≠ checkpoint_file dir j) ∧
  ∃ jobs,
    queue (dispatch_loop cfg s dir w).2 = queue w ++ jobs ∧
    (∀ i jd, jobs !! i = Some jd →
       jd_checkpoint_file jd = Some (checkpoint_file dir i)) ∧
    NoDup (jd_checkpoint_file <$> jobs) ∧
    (is_Ok (dispatch_loop cfg s dir w).1 → length jobs = n_hpo_trials cfg).
Proof.
  split.
  { intros i j Hne Heq. by apply Hne, (checkpoint_file_inj dir). }
  destruct (dispatch_loop_run cfg s dir w)
    as (r & jobs & lines & Hrun & Hlen & Hjobs & Hres & Htot).
  exists jobs. rewrite Hrun. split_and!; [done | | | ].
  - intros i jd Hi. by destruct (Hjobs i jd Hi) as (hp & _ & ->).
  - by eapply dispatch_paths_NoDup.
  - intros [results Hr]. simpl in Hr. by destruct (Hres results Hr).
Qed.

(** C6: whenever the Dispatch Loop completes it returns exactly one handle
    per trial, [n_hpo_trials] in all, the handle at position [i] naming the
    [i]-th job queued by the loop; and on the arrays produced by the Sample
    Generator for that trial count the loop does complete. *)
Theorem dispatch_loop_one_handle_per_trial cfg dir :
  (∀ s w results w',
     dispatch_loop cfg s dir w = (Ok results, w') →
     length results = n_hpo_trials cfg ∧
     (∃ jobs, queue w' = queue w ++ jobs ∧ length jobs = length results) ∧
     ∀ i, i < n_hpo_trials cfg →
          results !! i = Some {| msg_id := length (queue w) + i |}) ∧
  (∀ w0, ∃ s w1,
     sample_generator (n_hpo_trials cfg) w0 = (Ok s, w1) ∧
     ∀ w, ∃ results w',
       dispatch_loop cfg s dir w = (Ok results, w') ∧
       length results = n_hpo_trials cfg).
Proof.
  assert (∀ s w results w',
     dispatch_loop cfg s dir w = (Ok results, w') →
     length results = n_hpo_trials cfg ∧
     (∃ jobs, queue w' = queue w ++ jobs ∧ length jobs = length results) ∧
     ∀ i, i < n_hpo_trials cfg →
          results !! i = Some {| msg_id := length (queue w) + i |}) as Hpart.
  { intros s w results w' Hloop.
    destruct (dispatch_loop_run cfg s dir w)
      as (r & jobs & lines & Hrun & Hlen & Hjobs & Hres & Htot).
    rewrite Hrun in Hloop. injection Hloop as -> <-.
    destruct (Hres results eq_refl) as [Hl ->].
    rewrite length_fmap, length_seq. split_and!; [done | by exists jobs |].
    intros i Hi. by rewrite list_lookup_fmap, lookup_seq_lt. }
  split; [exact Hpart|]. intros w0.
  destruct (sample_generator_lengths (n_hpo_trials cfg) w0)
    as (s & st & Hgen & Hidx).
  exists s, (with_np_random st w0). split; [done|]. intros w.
  destruct (dispatch_loop_run cfg s dir w)
    as (r & jobs & lines & Hrun & Hlen & Hjobs & Hres & Htot).
  destruct Htot as [results ->]; [intros i Hi; by apply Hidx|].
  exists results, (dispatched w jobs lines). split; [done|].
  by eapply Hpart.
Qed.

(** ** Worker pool *)

Lemma run_task_run jd w :
  run_task jd w =
  match job_outcome jd with
  | Ok (h, m) => (Ok h, checkpointed jd m w)
  | Raise e => (Raise e, w)
  end.
Proof.
  unfold run_task, build_and_train, job_outcome, train_model, checkpointed,
    write_file.
  run_cell.
  destruct (load_file (path_join (jd_input_dir jd) "train.h5") (jd_n_train jd))
    as [[[ti tl] tw]|e]; simpl; [|done].
  destruct (load_file (path_join (jd_input_dir jd) "val.h5") (jd_n_valid jd))
    as [[[vi vl] vw]|e]; simpl; [|done].
  destruct (build_model _ _ _ _ _ _) as [model|e]; simpl; [|done].
  destruct (fit _ _ _ _ _ _ _ _) as [[h m]|e]; simpl; [|done].
  by destruct (jd_checkpoint_file jd).
Qed.

Lemma checkpointed_frame jd m w :
  queue (checkpointed jd m w) = queue w ∧
  outcomes (checkpointed jd m w) = outcomes w ∧
  fetched (checkpointed jd m w) = fetched w.
Proof. unfold checkpointed. by destruct (jd_checkpoint_file jd). Qed.

Lemma checkpointed_files jd m w (path : string) :
  files (checkpointed jd m w) !! path =
  if decide (jd_checkpoint_file jd = Some path) then Some m
  else files w !! path.
Proof.
  unfold checkpointed. destruct (jd_checkpoint_file jd) as [p|].
  - case_decide; simplify_eq; simpl.
    + by rewrite lookup_insert_eq.
    + rewrite lookup_insert_ne; [done|congruence].
  - by case_decide.
Qed.

Lemma execute_run id w :
  execute id w =
  match outcomes w !! id, queue w !! id with
  | None, Some jd =>
      match job_outcome jd with
      | Ok (h, m) =>
          with_outcomes (<[id := Ok h]> (outcomes w)) (checkpointed jd m w)
      | Raise e => with_outcomes (<[id := Raise e]> (outcomes w)) w
      end
  | _, _ => w
  end.
Proof.
  unfold execute. destruct (outcomes w !! id); [done|].
  destruct (queue w !! id) as [jd|]; [|done]. rewrite run_task_run.
  destruct (job_outcome jd) as [[h m]|e]; [|done].
  by destruct (checkpointed_frame jd m w) as (_ & -> & _).
Qed.

(** One task finishing keeps the pool consistent; it changes neither the
    queue nor the fetch log, and forgets no outcome. *)
Lemma execute_ok id w :
  pool_ok w →
  pool_ok (execute id w) ∧
  queue (execute id w) = queue w ∧
  fetched (execute id w) = fetched w ∧
  outcomes w ⊆ outcomes (execute id w) ∧
  (is_Some (queue w !! id) → is_Some (outcomes (execute id w) !! id)).
Proof.
  intros [Hout Hdist]. rewrite execute_run.
  destruct (outcomes w !! id) as [r|] eqn:Hid.
  { split_and!; [done..|]. intros _. by rewrite Hid. }
  destruct (queue w !! id) as [jd|] eqn:Hjd.
  2: { split_and!; [done..|]. by intros [? ?]. }
  destruct (job_outcome jd) as [[h m]|e] eqn:Hjob.
  - destruct (checkpointed_frame jd m w) as (Hq & Ho & Hf).
    split_and!; simpl; [| done | done | by apply insert_subseteq |].
    2: { intros _. rewrite lookup_insert_eq. by eexists. }
    split; simpl; [|by rewrite Hq].
    intros id' r. rewrite Hq. destruct (decide (id = id')) as [<-|Hne].
    + rewrite lookup_insert_eq. intros Hr. injection Hr as Hr. subst r.
      exists jd.
      split_and!; [done | by rewrite Hjob |].
      intros h' m' path Heq Hpath. assert (m' = m) as -> by congruence.
      rewrite checkpointed_files. by rewrite decide_True.
    + rewrite lookup_insert_ne by done. intros Hr.
      destruct (Hout id' r Hr) as (jd' & Hjd' & -> & Hfile).
      exists jd'. split_and!; [done..|].
      intros h' m' path Heq Hpath. rewrite checkpointed_files.
      case_decide as Hsame; [|by eapply Hfile].
      destruct Hne. by eapply Hdist.
  - split_and!; simpl; [| done | done | by apply insert_subseteq |].
    2: { intros _. rewrite lookup_insert_eq. by eexists. }
    split; simpl; [|done].
    intros id' r. destruct (decide (id = id')) as [<-|Hne].
    + rewrite lookup_insert_eq. intros Hr. injection Hr as Hr. subst r.
      exists jd.
      split_and!; [done | by rewrite Hjob |].
      intros h' m' path Heq. congruence.
    + rewrite lookup_insert_ne by done. apply Hout.
Qed.

Lemma pool_run_ok (order : list nat) : ∀ w,
  pool_ok w →
  pool_ok (pool_run order w) ∧
  queue (pool_run order w) = queue w ∧
  fetched (pool_run order w) = fetched w ∧
  outcomes w ⊆ outcomes (pool_run order w).
Proof.
  induction order as [|id order IH]; intros w Hok; simpl; [done|].
  destruct (execute_ok id w Hok) as (Hok1 & Hq1 & Hf1 & Ho1 & _).
  destruct (IH (execute id w) Hok1) as (Hok2 & Hq2 & Hf2 & Ho2).
  unfold pool_run in *.
  split_and!; [done | congruence | congruence | by etrans].
Qed.

(** Fetching the result of a queued task: the task is finished, its value
    is returned or its exception re-raised as a [RemoteError], and the
    fetch is logged. *)
Lemma async_get_run ar jd w :
  pool_ok w → queue w !! msg_id ar = Some jd →
  async_get ar w
  = (get_result jd,
     with_fetched (fetched w ++ [msg_id ar]) (execute (msg_id ar) w)) ∧
  outcomes (execute (msg_id ar) w) !! msg_id ar = Some (fst <$> job_outcome jd).
Proof.
  intros Hok Hjd.
  destruct (execute_ok (msg_id ar) w Hok) as ([Hout _] & Hq & Hf & _ & Hsome).
  destruct Hsome as [r Hr]; [by eexists|].
  destruct (Hout _ _ Hr) as (jd' & Hjd' & -> & _).
  rewrite Hq, Hjd in Hjd'. injection Hjd' as <-.
  split; [|done]. unfold async_get. cbv zeta. rewrite Hr, Hf.
  unfold get_result. by destruct (job_outcome jd) as [[h m]|e].
Qed.

Lemma mapM_M_cons {A B} (f : A → M B) (x : A) (l : list A) :
  mapM f (x :: l) = (y ← f x; k ← mapM f l; mret (y :: k)).
Proof. done. Qed.

Lemma result_collector_run (handles : list AsyncResult) :
  ∀ (jobs : list JobDescriptor) w,
  pool_ok w →
  Forall2 (λ ar jd, queue w !! msg_id ar = Some jd) handles jobs →
  ∃ w',
    result_collector handles w = (mapM get_result jobs, w') ∧
    pool_ok w' ∧ queue w' = queue w ∧ outcomes w ⊆ outcomes w' ∧
    fetched w' = fetched w ++ (msg_id <$> take (attempts jobs) handles) ∧
    Forall (λ ar, is_Some (outcomes w' !! msg_id ar))
      (take (attempts jobs) handles).
Proof.
  unfold result_collector.
  induction handles as [|ar handles IH]; intros jobs w Hok Hall.
  - apply Forall2_nil_inv_l in Hall as ->. exists w. simpl.
    rewrite app_nil_r. by split_and!.
  - apply Forall2_cons_inv_l in Hall as (jd & jobs' & Hjd & Hall & ->).
    destruct (async_get_run ar jd w Hok Hjd) as [Hget Hrec].
    destruct (execute_ok (msg_id ar) w Hok) as (Hok1 & Hq1 & Hf1 & Ho1 & _).
    rewrite mapM_M_cons, bind_run, Hget. simpl.
    destruct (get_result jd) as [h|e] eqn:Hres.
    + destruct (IH jobs'
                  (with_fetched (fetched w ++ [msg_id ar]) (execute (msg_id ar) w)))
        as (w' & Hrun & Hok' & Hq' & Ho' & Hf' & Hsome').
      { done. }
      { by rewrite <- Hq1 in Hall. }
      exists w'. rewrite bind_run, Hrun. simpl in *.
      split_and!; [ | done | congruence | by etrans | |].
      * by destruct (mapM get_result jobs').
      * by rewrite Hf', <- app_assoc.
      * constructor; [|done]. eapply lookup_weaken_is_Some; [|exact Ho'].
        by rewrite Hrec.
    + eexists. split; [done|]. simpl.
      split_and!; [done..|].
      constructor; [|done]. simpl. by rewrite Hrec.
Qed.

(** The pool after the Dispatch Loop has run on a fresh client. *)
Lemma dispatch_fresh cfg s dir w0 results w1 :
  fresh_pool w0 → dispatch_loop cfg s dir w0 = (Ok results, w1) →
  pool_ok w1 ∧ fetched w1 = [] ∧
  length (queue w1) = n_hpo_trials cfg ∧
  results = (λ i, {| msg_id := i |}) <$> seq 0 (n_hpo_trials cfg) ∧
  (∀ i jd, queue w1 !! i = Some jd →
     ∃ hp, sample_at s i = Ok hp ∧
           jd = job_descriptor cfg hp (checkpoint_file dir i)) ∧
  Forall2 (λ ar jd, queue w1 !! msg_id ar = Some jd) results (queue w1).
Proof.
  intros (Hq & Ho & Hf) Hloop.
  destruct (dispatch_loop_run cfg s dir w0)
    as (r & jobs & lines & Hrun & Hlen & Hjobs & Hres & Htot).
  rewrite Hrun in Hloop. injection Hloop as -> <-.
  destruct (Hres results eq_refl) as [Hl ->].
  assert (queue (dispatched w0 jobs lines) = jobs) as Hqueue.
  { unfold dispatched; simpl. by rewrite Hq. }
  rewrite Hqueue, Hq. simpl. split_and!; [| done | done | done | done |].
  - split; simpl.
    + rewrite Ho. intros id r. by rewrite lookup_empty.
    + rewrite Hq. simpl. intros i j jdi jdj path Hi Hj Hpi Hpj.
      pose proof (dispatch_paths_NoDup cfg s dir jobs Hjobs) as Hnd.
      apply (NoDup_lookup _ i j (Some path) Hnd);
        rewrite list_lookup_fmap; [rewrite Hi | rewrite Hj]; simpl; congruence.
  - apply Forall2_same_length_lookup. split.
    + by rewrite length_fmap, length_seq.
    + intros i ar jd Har Hjd. rewrite list_lookup_fmap in Har.
      destruct (seq 0 (n_hpo_trials cfg) !! i) as [k|] eqn:Hk; [|done].
      apply lookup_seq in Hk as [-> _]. by simplify_eq/=.
Qed.

(** ** Result Collector *)

Lemma get_result_Ok jd h :
  get_result jd = Ok h ↔ ∃ m, job_outcome jd = Ok (h, m).
Proof.
  unfold get_result. destruct (job_outcome jd) as [[h' m']|e].
  - split; [intros Heq; exists m'; congruence | intros [m Heq]; congruence].
  - split; [done | by intros [m Heq]].
Qed.

Lemma get_result_Raise jd e :
  job_outcome jd = Raise e → get_result jd = Raise (RemoteError e).
Proof. unfold get_result. by intros ->. Qed.

Lemma attempts_all (jobs : list JobDescriptor) (hs : list History) :
  mapM get_result jobs = Ok hs → attempts jobs = length jobs.
Proof.
  revert hs. induction jobs as [|jd jobs IH]; intros hs; simpl; [done|].
  destruct (get_result jd) as [h|e]; simpl; [|done].
  destruct (mapM get_result jobs) as [hs'|e]; simpl; [|done].
  intros _. f_equal. by eapply IH.
Qed.

(** A collection over tasks of which one failed stops at the first failed
    task. *)
Lemma attempts_first_failure (jobs : list JobDescriptor) : ∀ k jd e,
  jobs !! k = Some jd → get_result jd = Raise e →
  ∃ j jdj e',
    j ≤ k ∧ jobs !! j = Some jdj ∧ get_result jdj = Raise e' ∧
    (∀ i jdi, i < j → jobs !! i = Some jdi → is_Ok (get_result jdi)) ∧
    mapM get_result jobs = Raise e' ∧ attempts jobs = S j.
Proof.
  induction jobs as [|jd0 jobs IH]; intros k jd e Hk He; [done|].
  destruct (get_result jd0) as [h|e0] eqn:H0.
  - destruct k as [|k]; [simpl in Hk; congruence|]. simpl in Hk.
    destruct (IH k jd e Hk He) as (j & jdj & e' & Hj & Hjd & He' & Hbefore & Hm & Ha).
    exists (S j), jdj, e'. simpl. rewrite H0. simpl. rewrite Hm, Ha. simpl.
    split_and!; [lia | done | done | | done | done].
    intros [|i] jdi Hi Hjdi; simplify_eq/=; [by eexists|].
    eapply Hbefore; [|done]. lia.
  - exists 0, jd0, e0. simpl. rewrite H0. simpl.
    split_and!; [lia | done | done | | done | done].
    intros i jdi Hi. lia.
Qed.

(** C4: after the Dispatch Loop has run on a fresh client, and whatever
    the order in which the pool finishes tasks, a collection that returns
    yields as many histories as there are handles, the history at position
    [i] being the history of the job submitted at position [i] (the job
    built from the hyper-parameters of trial [i]); and the collection does
    return when every submitted job succeeds. *)
Theorem result_collector_order_preserving cfg s dir w0 results w1 schedule :
  fresh_pool w0 →
  dispatch_loop cfg s dir w0 = (Ok results, w1) →
  (∀ histories,
     (result_collector results (pool_run schedule w1)).1 = Ok histories →
     length histories = length results ∧
     ∀ i ar, results !! i = Some ar →
       ∃ hp jd h m,
         sample_at s i = Ok hp ∧
         jd = job_descriptor cfg hp (checkpoint_file dir i) ∧
         queue w1 !! msg_id ar = Some jd ∧
         job_outcome jd = Ok (h, m) ∧
         histories !! i = Some h) ∧
  ((∀ jd, jd ∈ queue w1 → is_Ok (job_outcome jd)) →
   is_Ok (result_collector results (pool_run schedule w1)).1).
Proof.
  intros Hfresh Hloop.
  destruct (dispatch_fresh _ _ _ _ _ _ Hfresh Hloop)
    as (Hok1 & Hf1 & Hlen & Hres & Hdesc & Hall).
  destruct (pool_run_ok schedule w1 Hok1) as (Hok & Hq & Hf & _).
  destruct (result_collector_run results (queue w1) (pool_run schedule w1))
    as (w' & Hrun & _); [done | by rewrite Hq |].
  rewrite Hrun. simpl. split.
  - intros histories Hm.
    pose proof (mapM_result_length _ _ _ Hm) as Hlh.
    apply mapM_result_Ok in Hm.
    assert (length results = n_hpo_trials cfg) as Hlr.
    { by rewrite Hres, length_fmap, length_seq. }
    split; [congruence|]. intros i ar Hi.
    assert (ar = {| msg_id := i |}) as ->.
    { rewrite Hres, list_lookup_fmap in Hi.
      destruct (seq 0 (n_hpo_trials cfg) !! i) as [k|] eqn:Hk; [|done].
      apply lookup_seq in Hk as [-> _]. by simplify_eq/=. }
    simpl. apply lookup_lt_Some in Hi.
    destruct (lookup_lt_is_Some_2 (queue w1) i) as [jd Hjd]; [lia|].
    destruct (Hdesc i jd Hjd) as (hp & Hhp & Hjd').
    destruct (Forall2_lookup_l _ _ _ _ _ Hm Hjd) as (h & Hh & Hget).
    apply get_result_Ok in Hget as [m Hjob].
    by exists hp, jd, h, m.
  - intros Hjobs. apply mapM_result_total, list.Forall_forall.
    intros jd Hjd. destruct (Hjobs jd Hjd) as [[h m] Hjob].
    exists h. apply get_result_Ok. by exists m.
Qed.

(** C7: if the job of the handle at position [k] raised [e] during
    training, fetching that handle raises [RemoteError e]; the collection
    raises the [RemoteError] of the first failed job, at a position [j] not
    after [k], instead of returning a list, and it has fetched the handles
    at positions [0..j] only: no handle after position [k] is fetched. *)
Theorem remote_failure_aborts_collection cfg s dir w0 results w1 schedule k ar jd e :
  fresh_pool w0 →
  dispatch_loop cfg s dir w0 = (Ok results, w1) →
  results !! k = Some ar →
  queue w1 !! msg_id ar = Some jd →
  job_outcome jd = Raise e →
  (async_get ar (pool_run schedule w1)).1 = Raise (RemoteError e) ∧
  ∃ j arj jdj e',
    j ≤ k ∧ results !! j = Some arj ∧ queue w1 !! msg_id arj = Some jdj ∧
    job_outcome jdj = Raise e' ∧
    (result_collector results (pool_run schedule w1)).1
      = Raise (RemoteError e') ∧
    fetched (result_collector results (pool_run schedule w1)).2
      = msg_id <$> take (S j) results ∧
    ∀ i ari, k < i → results !! i = Some ari →
      msg_id ari ∉ fetched (result_collector results (pool_run schedule w1)).2.
Proof.
  intros Hfresh Hloop Hk Hjd Hjob.
  destruct (dispatch_fresh _ _ _ _ _ _ Hfresh Hloop)
    as (Hok1 & Hf1 & Hlen & Hres & Hdesc & Hall).
  destruct (pool_run_ok schedule w1 Hok1) as (Hok & Hq & Hf & _).
  assert (∀ i a, results !! i = Some a → a = {| msg_id := i |}) as Hid.
  { intros i a Hi. rewrite Hres, list_lookup_fmap in Hi.
    destruct (seq 0 (n_hpo_trials cfg) !! i) as [i'|] eqn:Hi'; [|done].
    apply lookup_seq in Hi' as [-> _]. by simplify_eq/=. }
  split.
  { destruct (async_get_run ar jd (pool_run schedule w1)) as [-> _];
      [done | by rewrite Hq |].
    simpl. by apply get_result_Raise. }
  destruct (result_collector_run results (queue w1) (pool_run schedule w1))
    as (w' & Hrun & _ & _ & _ & Hfetched & _); [done | by rewrite Hq |].
  rewrite Hrun. simpl.
  pose proof (Hid k ar Hk) as ->. simpl in Hjd.
  destruct (attempts_first_failure (queue w1) k jd (RemoteError e) Hjd)
    as (j & jdj & e' & Hj & Hjdj & He' & _ & Hm & Ha).
  { by apply get_result_Raise. }
  unfold get_result in He'.
  destruct (job_outcome jdj) as [[h m]|e0] eqn:Hjobj; [done|].
  injection He' as <-.
  assert (j < length results) as Hjlen by (apply lookup_lt_Some in Hk; lia).
  destruct (lookup_lt_is_Some_2 results j Hjlen) as [arj Harj].
  pose proof (Hid j arj Harj) as ->.
  exists j, {| msg_id := j |}, jdj, e0.
  rewrite Hfetched, Hf, Hf1, Ha. simpl.
  split_and!; [done..|].
  intros i ari Hi Hari Hin. pose proof (Hid i ari Hari) as ->. simpl in Hin.
  apply list_elem_of_fmap in Hin as (a & Ha' & Hin).
  apply list_elem_of_lookup in Hin as [i' Hi'].
  pose proof (lookup_lt_Some _ _ _ Hi') as Hlt.
  rewrite length_take in Hlt.
  rewrite lookup_take_lt in Hi' by lia.
  pose proof (Hid i' a Hi') as ->. simpl in Ha'. lia.
Qed.

(** ** From the Dispatch Loop to the Evaluator *)



(** Below the checkpoint directory of cell 7, the checkpoint of trial [i]
    is the file model_<i>.h5 of that directory. *)
Lemma checkpoint_file_form (scratch : string) (job_id : Z) (i : nat) :
  checkpoint_file (checkpoint_dir_of scratch job_id) i
  = checkpoint_dir_of scratch job_id +:+ "/model_" +:+ fmt_i_nat i +:+ ".h5".
Proof.
  destruct (checkpoint_dir_of_last scratch job_id) as [Hne Hend].
  unfold checkpoint_file. rewrite path_join_relative by done.
  by rewrite Hend, bool_decide_eq_false_2.
Qed.




End properties.

(** Three outputs of which the second sits on the default threshold, with
    sample weights. *)
Lemma threshold_comparison_strict_witness :
  preds [9 # 10; 1 # 2; 1 # 10] default_threshold !! 1 = Some false ∧
  summarize_metrics (E := Toy.externals) [1; 0; 0]%Z
    (<[1 := 0%Q]> [9 # 10; 1 # 2; 1 # 10]) default_threshold (Some [1; 2; 3]%Q)
  = summarize_metrics [1; 0; 0]%Z [9 # 10; 1 # 2; 1 # 10] default_threshold
      (Some [1; 2; 3]%Q).
Proof.
  destruct (threshold_comparison_strict (E := Toy.externals) [1; 0; 0]%Z
              [9 # 10; 1 # 2; 1 # 10] default_threshold (Some [1; 2; 3]%Q)
              1 (1 # 2)) as [H1 H2]; [reflexivity | reflexivity |].
  split; [exact H1|]. apply H2. by vm_compute.
Defined.

(** * The statements on the concrete instance *)

(** A run is determined by its result and its final world. *)
Lemma run_eq {A B} (run : A * B) (a : A) : run.1 = a → run = (a, run.2).
Proof. intros <-. by destruct run. Qed.

(** Three trials on the concrete instance, the pool finishing task 2, then
    task 0, before the collection. *)
Lemma result_collector_order_preserving_witness :
  ∃ histories,
    (result_collector Toy.handles (pool_run [2; 0] Toy.after_dispatch)).1
      = Ok histories ∧
    length histories = 3 ∧
    ∃ jd h m,
      queue Toy.after_dispatch !! 1 = Some jd ∧
      job_outcome jd = Ok (h, m) ∧ histories !! 1 = Some h.
Proof.
  destruct (result_collector_order_preserving (E := Toy.externals)
              Toy.small_config Toy.samples Toy.checkpoint_dir Toy.seeded
              Toy.handles Toy.after_dispatch [2; 0]) as [Hpart Htot].
  - by vm_compute.
  - apply run_eq. by vm_compute.
  - destruct Htot as [histories Hh].
    { apply list.Forall_forall. vm_compute queue.
      repeat constructor; eexists; vm_compute; reflexivity. }
    exists histories. destruct (Hpart histories Hh) as [Hlen Hpos].
    split; [exact Hh|]. split; [exact Hlen|].
    destruct (Hpos 1 {| msg_id := 1 |} eq_refl)
      as (hp & jd & h & m & _ & _ & Hjd & Hjob & Hhist).
    exists jd, h, m. split; [exact Hjd|]. split; [exact Hjob | exact Hhist].
Defined.

(** The same search with the batch size for which trial 1 fails: the
    collection stops at handle 1 and never fetches handle 2. *)
Lemma remote_failure_aborts_collection_witness :
  (async_get {| msg_id := 1 |} (pool_run [2; 0] Toy.after_dispatch_failing)).1
    = Raise (RemoteError (ValueError "loss is nan")) ∧
  ∃ j e',
    j ≤ 1 ∧
    (result_collector Toy.handles (pool_run [2; 0] Toy.after_dispatch_failing)).1
      = Raise (RemoteError e') ∧
    fetched (result_collector Toy.handles
               (pool_run [2; 0] Toy.after_dispatch_failing)).2
      = msg_id <$> take (S j) Toy.handles ∧
    2 ∉ fetched (result_collector Toy.handles
                   (pool_run [2; 0] Toy.after_dispatch_failing)).2.
Proof.
  destruct (remote_failure_aborts_collection (E := Toy.externals)
              Toy.failing_config Toy.samples Toy.checkpoint_dir Toy.seeded
              Toy.handles Toy.after_dispatch_failing [2; 0] 1
              {| msg_id := 1 |} Toy.failing_job (ValueError "loss is nan"))
    as [Hget (j & arj & jdj & e' & Hj & _ & _ & _ & Hraise & Hfetched & Hnot)].
  - by vm_compute.
  - apply run_eq. by vm_compute.
  - reflexivity.
  - by vm_compute.
  - by vm_compute.
  - split; [exact Hget|]. exists j, e'.
    split; [exact Hj|]. split; [exact Hraise|]. split; [exact Hfetched|].
    apply (Hnot 2 {| msg_id := 2 |}); [lia | reflexivity].
Defined.


(** * Sample runs *)

Example path_join_plain : path_join "/scratch/run" "model_3.h5" = "/scratch/run/model_3.h5".
Proof. reflexivity. Qed.

Example path_join_trailing_sep : path_join "/scratch/run/" "model_3.h5" = "/scratch/run/model_3.h5".
Proof. reflexivity. Qed.

Example path_join_absolute : path_join "/scratch/run" "/tmp/model_3.h5" = "/tmp/model_3.h5".
Proof. reflexivity. Qed.

Example checkpoint_file_12 :
  checkpoint_file (checkpoint_dir_of "/scratch" 24194075) 12
  = "/scratch/cori-interactive-dl/rpv_hpo_24194075/model_12.h5".
Proof. vm_compute. reflexivity. Qed.

Example py_max_first_of_equals : py_max [1 # 2; 3 # 4; 6 # 8] = Ok (3 # 4).
Proof. reflexivity. Qed.

Example argmax_first_of_equals : argmax [1 # 2; 3 # 4; 3 # 4; 1 # 4] = Ok 1.
Proof. reflexivity. Qed.

Example argmin_first_of_equals : argmin [1 # 2; 1 # 4; 3 # 4; 1 # 4] = Ok 1.
Proof. reflexivity. Qed.

Example argmax_empty : ∃ e, argmax [] = Raise e.
Proof. by eexists. Qed.

Example model_selector_no_epoch :
  model_selector [synthetic_history []] = Raise IndexError.
Proof. vm_compute. reflexivity. Qed.

Example stack_axis1_rows :
  stack_axis1 [[4; 8]; [16; 32]; [64; 128]]%Z
  = Ok [[4; 16; 64]; [8; 32; 128]]%Z.
Proof. reflexivity. Qed.

Example preds_at_threshold :
  preds [9 # 10; 1 # 2; 2 # 4; 1 # 10] default_threshold
  = [true; false; false; false].
Proof. reflexivity. Qed.

Example ancestors_of_checkpoint_dir :
  ancestors "/scratch/cori-interactive-dl/rpv_hpo_24194075/"
  = ["/scratch"; "/scratch/cori-interactive-dl"].
Proof. reflexivity. Qed.

Example cell7_file_at_checkpoint_dir :
  (cell7 Toy.small_config Toy.blocked_world).1
  = Raise (FileExistsError "/scratch/cori-interactive-dl/rpv_hpo_24194075").
Proof. vm_compute. reflexivity. Qed.

Example os_makedirs_file_with_trailing_sep :
  (os_makedirs (E := Toy.externals) "/scratch/"
     (with_files {[ "/scratch" := 1%Q ]} Toy.init_world)).1
  = Raise (FileExistsError "/scratch/").
Proof. vm_compute. reflexivity. Qed.

Example os_makedirs_below_a_file :
  (os_makedirs (E := Toy.externals) "/scratch/cori-interactive-dl/rpv_hpo_1"
     (with_files {[ "/scratch" := 1%Q ]} Toy.init_world)).1
  = Raise (NotADirectoryError "/scratch/cori-interactive-dl").
Proof. vm_compute. reflexivity. Qed.

Example toy_notebook_report :
  stdout (evaluator (E := Toy.externals) Toy.small_config Toy.checkpoint_dir
            [1 # 2; 12612649932927771 # 18014398509481984; 1 # 2]
            Toy.after_collection).2
  = stdout Toy.after_collection ++
    [ "Unweighted metrics"; "Accuracy:   1/1"; "Purity:     1/1";
      "Efficiency: 1/1"; "Weighted metrics"; "Accuracy:   1/1";
      "Purity:     1/1"; "Efficiency: 1/1" ].
Proof. vm_compute. reflexivity. Qed.

(** * Further properties of the notebook *)

(** ** Cell 19 and the selections of cells 20 and 21 *)

Lemma mapM_result_is_Ok {A B} (f : A → result B) (l : list A) :
  is_Ok (mapM f l) ↔ Forall (λ x, is_Ok (f x)) l.
Proof.
  split; [|apply mapM_result_total].
  intros [k Hk%mapM_result_Ok]. apply list.Forall_forall. intros x Hx.
  apply list_elem_of_lookup in Hx as [i Hi].
  destruct (Forall2_lookup_l _ _ _ _ _ Hk Hi) as (y & _ & Hy). by exists y.
Qed.

(** A comprehension raises the exception of its first failing element. *)
Lemma mapM_result_first_failure {A B} (f : A → result B) (l : list A) :
  ∀ k x e,
    l !! k = Some x → f x = Raise e →
    (∀ j y, j < k → l !! j = Some y → is_Ok (f y)) →
    mapM f l = Raise e.
Proof.
  induction l as [|x0 l IH]; intros k x e Hk He Hbefore; [done|].
  destruct k as [|k]; simpl in Hk.
  - injection Hk as ->. simpl. by rewrite He.
  - destruct (Hbefore 0 x0) as [y0 Hy0]; [lia | done |].
    simpl. rewrite Hy0. simpl.
    rewrite (IH k x e Hk He); [done|].
    intros j y Hj Hy. apply (Hbefore (S j) y); [lia | done].
Qed.

Lemma getitem_last_Ok {A} (l : list A) (x : A) :
  getitem_last l = Ok x → x ∈ l.
Proof.
  unfold getitem_last. destruct (last l) as [y|] eqn:Hl; [|done].
  intros [= <-]. apply last_Some in Hl as [l' ->]. set_solver.
Qed.

Lemma val_acc_step_is_Ok (h : History) :
  (is_Ok (val_acc h ≫= getitem_last) ↔
   ∃ accs, h !! "val_acc" = Some accs ∧ accs ≠ []) ∧
  (is_Ok (val_acc h ≫= py_max) ↔
   ∃ accs, h !! "val_acc" = Some accs ∧ accs ≠ []).
Proof.
  unfold val_acc, dict_getitem.
  destruct (h !! "val_acc") as [accs|]; simpl.
  - split; (split; [intros [x Hx]; exists accs; split; [done|]; by intros ->
                   | intros (accs' & [= <-] & Hne)]).
    + by apply getitem_last_total.
    + by apply py_max_total.
  - split; (split; [by intros [x Hx] | by intros (accs & ? & _)]).
Qed.

(** X1: the two comprehensions of cell 19 succeed on the same lists of
    histories, give one score per history, and the last validation
    accuracy of a trial never exceeds its best one. *)
Theorem last_scores_le_best_scores (histories : list History) :
  (is_Ok (last_scores histories) ↔ is_Ok (best_scores histories)) ∧
  ∀ lasts bests,
    last_scores histories = Ok lasts → best_scores histories = Ok bests →
    length lasts = length histories ∧ length bests = length histories ∧
    ∀ i l b, lasts !! i = Some l → bests !! i = Some b → (l <= b)%Q.
Proof.
  split.
  - unfold last_scores, best_scores. rewrite !mapM_result_is_Ok.
    split; intros Hall; (eapply Forall_impl; [exact Hall|]); intros h Hh;
      apply val_acc_step_is_Ok; by apply val_acc_step_is_Ok in Hh.
  - intros lasts bests Hl Hb.
    split; [by eapply mapM_result_length|].
    split; [by eapply mapM_result_length|].
    intros i l b Hli Hbi.
    apply mapM_result_Ok in Hl, Hb.
    destruct (Forall2_lookup_r _ _ _ _ _ Hl Hli) as (h & Hh & Hlast).
    destruct (Forall2_lookup_r _ _ _ _ _ Hb Hbi) as (h' & Hh' & Hmax).
    rewrite Hh in Hh'. injection Hh' as <-. simpl in Hlast, Hmax.
    destruct (val_acc h) as [accs|]; simpl in Hlast, Hmax; [|done].
    apply getitem_last_Ok in Hlast. apply py_max_spec in Hmax as [_ Hle].
    by apply Hle.
Qed.

(** X2: what the selector raises.  On an empty list of histories it is
    the [ValueError] of [argmax]; otherwise it is the exception of the
    first history without usable validation accuracies, raised by the first
    comprehension of cell 19: [KeyError] when the metric is missing,
    [IndexError] when it has no epoch. *)
Theorem model_selector_errors (histories : list History) :
  (histories = [] →
   model_selector histories
   = Raise (ValueError "attempt to get argmax of an empty sequence")) ∧
  (∀ k (h : History),
     histories !! k = Some h →
     (∀ j (h' : History), j < k → histories !! j = Some h' →
        ∃ accs, h' !! "val_acc" = Some accs ∧ accs ≠ []) →
     (h !! "val_acc" = None →
      model_selector histories = Raise (KeyError "val_acc")) ∧
     (h !! "val_acc" = Some [] →
      model_selector histories = Raise IndexError)).
Proof.
  split; [by intros ->|].
  intros k h Hk Hbefore.
  assert (∀ e, val_acc h ≫= getitem_last = Raise e →
               model_selector histories = Raise e) as Hraise.
  { intros e He. unfold model_selector, last_scores.
    rewrite (mapM_result_first_failure _ histories k h e Hk He); [done|].
    intros j h' Hj Hh'. apply val_acc_step_is_Ok. by eapply Hbefore. }
  split; intros Hh; apply Hraise; unfold val_acc, dict_getitem; by rewrite Hh.
Qed.

Lemma argmax_from_first (l : list Q) (i : nat) (mp : Q) (max_ind : nat) :
  argmax_from l i mp max_ind = max_ind ∨
  ∃ k v, l !! k = Some v ∧ argmax_from l i mp max_ind = i + k ∧
         (mp < v)%Q ∧ ∀ j x, j < k → l !! j = Some x → (x < v)%Q.
Proof.
  revert i mp max_ind. induction l as [|x l IH]; intros i mp max_ind; simpl.
  { by left. }
  destruct (Qgtb x mp) eqn:Hg.
  - apply Qgtb_true in Hg. right.
    destruct (IH (S i) x i) as [->|(k & v & Hk & -> & Hlt & Hall)].
    + exists 0, x. split_and!; [done | lia | done |]. intros j y Hj. lia.
    + exists (S k), v. split_and!; [done | lia | by eapply Qlt_trans |].
      intros [|j] y Hj Hy; simplify_eq/=; [done|]. eapply Hall; [|done]. lia.
  - apply Qgtb_false in Hg.
    destruct (IH (S i) mp max_ind) as [->|(k & v & Hk & -> & Hlt & Hall)].
    + by left.
    + right. exists (S k), v. split_and!; [done | lia | done |].
      intros [|j] y Hj Hy; simplify_eq/=; [by eapply Qle_lt_trans|].
      eapply Hall; [|done]. lia.
Qed.

Lemma argmin_from_first (l : list Q) (i : nat) (mp : Q) (min_ind : nat) :
  argmin_from l i mp min_ind = min_ind ∨
  ∃ k v, l !! k = Some v ∧ argmin_from l i mp min_ind = i + k ∧
         (v < mp)%Q ∧ ∀ j x, j < k → l !! j = Some x → (v < x)%Q.
Proof.
  revert i mp min_ind. induction l as [|x l IH]; intros i mp min_ind; simpl.
  { by left. }
  rewrite Qltb_Qgtb. destruct (Qgtb mp x) eqn:Hg.
  - apply Qgtb_true in Hg. right.
    destruct (IH (S i) x i) as [->|(k & v & Hk & -> & Hlt & Hall)].
    + exists 0, x. split_and!; [done | lia | done |]. intros j y Hj. lia.
    + exists (S k), v. split_and!; [done | lia | by eapply Qlt_trans |].
      intros [|j] y Hj Hy; simplify_eq/=; [done|]. eapply Hall; [|done]. lia.
  - apply Qgtb_false in Hg.
    destruct (IH (S i) mp min_ind) as [->|(k & v & Hk & -> & Hlt & Hall)].
    + by left.
    + right. exists (S k), v. split_and!; [done | lia | done |].
      intros [|j] y Hj Hy; simplify_eq/=; [by eapply Qlt_le_trans|].
      eapply Hall; [|done]. lia.
Qed.

Lemma argmax_first (a : list Q) (r : nat) :
  argmax a = Ok r →
  ∀ j x v, j < r → a !! j = Some x → a !! r = Some v → (x < v)%Q.
Proof.
  destruct a as [|x0 l]; simpl; [done|]. intros [= <-] j x v Hj Hx Hv.
  destruct (argmax_from_first l 1 x0 0) as [Heq|(k & v' & Hk & Heq & Hlt & Hall)];
    rewrite Heq in Hj, Hv; [lia|].
  simpl in Hv. rewrite Hk in Hv. injection Hv as ->.
  destruct j as [|j]; simplify_eq/=; [done|]. eapply Hall; [|done]. lia.
Qed.

Lemma argmin_first (a : list Q) (r : nat) :
  argmin a = Ok r →
  ∀ j x v, j < r → a !! j = Some x → a !! r = Some v → (v < x)%Q.
Proof.
  destruct a as [|x0 l]; simpl; [done|]. intros [= <-] j x v Hj Hx Hv.
  destruct (argmin_from_first l 1 x0 0) as [Heq|(k & v' & Hk & Heq & Hlt & Hall)];
    rewrite Heq in Hj, Hv; [lia|].
  simpl in Hv. rewrite Hk in Hv. injection Hv as ->.
  destruct j as [|j]; simplify_eq/=; [done|]. eapply Hall; [|done]. lia.
Qed.

(** X3: among trials of equal score the selector reports the earliest one:
    every trial before the best has a strictly smaller score, every trial
    before the worst a strictly greater one. *)
Theorem model_selector_first_occurrence (histories : list History)
    (scores : list Q) (best worst : nat) :
  model_selector histories = Ok (best, worst) →
  best_scores histories = Ok scores →
  (∀ j s sb, j < best → scores !! j = Some s → scores !! best = Some sb →
     (s < sb)%Q) ∧
  (∀ j s sw, j < worst → scores !! j = Some s → scores !! worst = Some sw →
     (sw < s)%Q).
Proof.
  intros (lasts & scores' & _ & Hs & Hb & Hw)%model_selector_Ok Hscores.
  rewrite Hscores in Hs. injection Hs as <-.
  split; [by apply argmax_first | by apply argmin_first].
Qed.

(** Two trials share the best score and two the worst. *)
Lemma model_selector_first_occurrence_witness :
  model_selector
    [synthetic_history [1 # 2]; synthetic_history [1 # 2; 9 # 10];
     synthetic_history [9 # 10; 1 # 2]; synthetic_history [1 # 2]]
  = Ok (1, 0) ∧
  (1 # 2 < 9 # 10)%Q.
Proof.
  split; [reflexivity|].
  apply (proj1 (model_selector_first_occurrence
                  [synthetic_history [1 # 2]; synthetic_history [1 # 2; 9 # 10];
                   synthetic_history [9 # 10; 1 # 2]; synthetic_history [1 # 2]]
                  [1 # 2; 9 # 10; 9 # 10; 1 # 2] 1 0 eq_refl eq_refl)
           0 (1 # 2) (9 # 10)); [lia|reflexivity..].
Defined.

(** ** Names derived from the job id (cells 4, 7 and 10) *)

Lemma string_app_assoc (a b c : string) : (a +:+ b) +:+ c = a +:+ (b +:+ c).
Proof.
  induction a as [|x a IH]; [done|].
  rewrite !string_app_cons. by rewrite IH.
Qed.

Lemma has_sep_app (s t : string) : has_sep (s +:+ t) = has_sep s || has_sep t.
Proof.
  induction s as [|c s IH]; [done|].
  rewrite string_app_cons. simpl. by rewrite IH, orb_assoc.
Qed.

Lemma pretty_N_go_has_sep (x : N) (s : string) :
  has_sep (pretty_N_go x s) = has_sep s.
Proof.
  revert s. induction (N.lt_wf_0 x) as [x _ IH]; intros s.
  destruct (decide (x = 0%N)) as [->|Hx]; [by rewrite pretty_N_go_0|].
  rewrite pretty_N_go_step by lia.
  rewrite IH by (apply N.div_lt; lia). simpl.
  rewrite bool_decide_eq_false_2; [done|]. apply pretty_N_char_not_sep.
Qed.

Lemma pretty_N_has_sep (x : N) : has_sep (pretty x) = false.
Proof.
  unfold pretty, pretty_N. case_decide; [done|].
  by rewrite pretty_N_go_has_sep.
Qed.

Lemma fmt_i_has_sep (z : Z) : has_sep (fmt_i z) = false.
Proof.
  destruct z as [|p|p]; [done | apply (pretty_N_has_sep (N.pos p)) |].
  change (fmt_i (Z.neg p)) with ("-" +:+ pretty (N.pos p)).
  by rewrite has_sep_app, pretty_N_has_sep.
Qed.

(** Two strings without separator that are followed by a separator in the
    same text are the same string. *)
Lemma split_at_sep (s1 s2 r1 r2 : string) :
  has_sep s1 = false → has_sep s2 = false →
  s1 +:+ String "/" r1 = s2 +:+ String "/" r2 → s1 = s2 ∧ r1 = r2.
Proof.
  revert s2. induction s1 as [|c1 s1 IH]; intros [|c2 s2] H1 H2 Heq.
  - by injection Heq as ->.
  - rewrite string_app_cons in Heq. injection Heq as <- _.
    by simpl in H2.
  - rewrite string_app_cons in Heq. injection Heq as -> _.
    by simpl in H1.
  - rewrite !string_app_cons in Heq. injection Heq as -> Heq.
    simpl in H1, H2. apply orb_false_iff in H1 as [_ H1], H2 as [_ H2].
    destruct (IH s2 H1 H2 Heq) as [-> ->]. done.
Qed.

(** X4: the job id namespaces the run: different job ids give different
    cluster ids, and no checkpoint path of one job id is a checkpoint path
    of another, whatever the trial indices and the scratch directory. *)
Theorem job_id_namespaces (scratch : string) (j1 j2 : Z) :
  (cluster_id j1 = cluster_id j2 → j1 = j2) ∧
  ∀ i1 i2,
    checkpoint_file (checkpoint_dir_of scratch j1) i1
    = checkpoint_file (checkpoint_dir_of scratch j2) i2 →
    j1 = j2 ∧ i1 = i2.
Proof.
  split.
  { unfold cluster_id. intros Heq%(inj (String.app _)).
    by apply (inj pretty) in Heq. }
  intros i1 i2. rewrite !checkpoint_file_form.
  unfold checkpoint_dir_of. rewrite !path_join_relative by done.
  rewrite !string_app_assoc. intros Heq.
  do 3 apply (inj (String.app _)) in Heq.
  apply (split_at_sep (fmt_i j1) (fmt_i j2)) in Heq as [Hj Hi];
    [|apply fmt_i_has_sep..].
  split; [by apply (inj pretty) in Hj | by apply checkpoint_name_inj].
Qed.

(** ** The ranking of cell 24 *)

Lemma is_argsort_NoDup a order : is_argsort a order → NoDup order.
Proof. intros [Hperm _]. rewrite Hperm. apply NoDup_seq. Qed.

Lemma is_argsort_length a order : is_argsort a order → length order = length a.
Proof. intros [Hperm _]. by rewrite Hperm, length_seq. Qed.

Lemma is_argsort_elem a order i :
  is_argsort a order → i ∈ order ↔ i < length a.
Proof.
  intros [Hperm _]. rewrite Hperm, elem_of_seq. lia.
Qed.

(** The entry of rank [p] from the top sits at position [length - 1 - p]
    of the ascending order. *)
Lemma top5_lookup order p i :
  top5 order !! p = Some i ↔
  order !! (length order - S p) = Some i ∧ p < length order ∧ p < 5.
Proof.
  unfold top5. rewrite lookup_take_Some, reverse_lookup_Some. tauto.
Qed.

Lemma is_argsort_last a order i j x y :
  is_argsort a order →
  order !! (length order - 1) = Some i → j < length a →
  a !! i = Some x → a !! j = Some y → (y <= x)%Q.
Proof.
  intros Hsort Hi Hj Hx Hy.
  apply (is_argsort_elem a order j Hsort) in Hj.
  apply list_elem_of_lookup in Hj as [r Hr].
  pose proof (lookup_lt_Some _ _ _ Hr) as Hlt.
  destruct (decide (r = length order - 1)) as [->|Hne].
  - assert (j = i) as -> by congruence.
    assert (y = x) as -> by congruence. apply Qle_refl.
  - destruct Hsort as [_ Hsorted].
    apply (Hsorted r (length order - 1) j i y x); [lia|done..].
Qed.

Lemma insert_index_Permutation a i order : insert_index a i order ≡ₚ i :: order.
Proof.
  induction order as [|j order IH]; simpl; [done|].
  destruct (Qle_bool _ _); [done|].
  rewrite IH. apply Permutation_swap.
Qed.

Lemma argsort_Permutation a : argsort a ≡ₚ seq 0 (length a).
Proof.
  unfold argsort. generalize (seq 0 (length a)). intros l.
  induction l as [|i l IH]; simpl; [done|].
  by rewrite insert_index_Permutation, IH.
Qed.

Lemma insert_index_sorted a i order :
  StronglySorted (λ i j, (a !!! i <= a !!! j)%Q) order →
  StronglySorted (λ i j, (a !!! i <= a !!! j)%Q) (insert_index a i order).
Proof.
  induction 1 as [|j order Hsorted IH Hall]; simpl.
  - by repeat constructor.
  - destruct (Qle_bool (a !!! i) (a !!! j)) eqn:Hle.
    + apply Qle_bool_iff in Hle.
      constructor; [by constructor|].
      constructor; [done|].
      eapply Forall_impl; [exact Hall|].
      intros k Hk. simpl in Hk. by eapply Qle_trans.
    + constructor; [done|].
      rewrite insert_index_Permutation. constructor; [|done].
      destruct (Qlt_le_dec (a !!! j) (a !!! i)) as [Hlt|Hge].
      * by apply Qlt_le_weak.
      * apply Qle_bool_iff in Hge. congruence.
Qed.

Lemma argsort_sorted a :
  StronglySorted (λ i j, (a !!! i <= a !!! j)%Q) (argsort a).
Proof.
  unfold argsort. generalize (seq 0 (length a)). intros l.
  induction l as [|i l IH]; simpl; [constructor|].
  by apply insert_index_sorted.
Qed.

Lemma StronglySorted_lookup {A} (R : A → A → Prop) (l : list A) :
  StronglySorted R l →
  ∀ p q x y, p < q → l !! p = Some x → l !! q = Some y → R x y.
Proof.
  induction 1 as [|z l Hsorted IH Hall]; intros p q x y Hpq Hp Hq; [done|].
  destruct q as [|q]; [lia|]. simpl in Hq.
  destruct p as [|p]; simpl in Hp.
  - injection Hp as ->.
    rewrite Forall_forall in Hall. apply Hall.
    by eapply list_elem_of_lookup_2.
  - apply (IH p q); [lia|done..].
Qed.

(** The stable ascending sort is an [argsort] in the sense of the
    ranking. *)
Lemma argsort_is_argsort a : is_argsort a (argsort a).
Proof.
  split; [apply argsort_Permutation|].
  intros p q i j x y Hpq Hp Hq Hx Hy.
  pose proof (StronglySorted_lookup _ _ (argsort_sorted a) p q i j Hpq Hp Hq)
    as Hle.
  simpl in Hle.
  by rewrite (list_lookup_total_correct _ _ _ Hx),
             (list_lookup_total_correct _ _ _ Hy) in Hle.
Qed.

(** X17: the five trials listed by cell 24, for any ascending order
    [argsort] may return.  They are [min 5 n] distinct trials of the
    search, listed by non-increasing best score; no trial left out beats a
    listed one; and the first listed score equals the score of the trial
    that [argmax] selects as the best model. *)
Theorem top5_ranks_best_first a order :
  is_argsort a order →
  length (top5 order) = 5 `min` length a ∧
  NoDup (top5 order) ∧
  (∀ i, i ∈ top5 order → i < length a) ∧
  (∀ p q i j x y, p < q →
     top5 order !! p = Some i → top5 order !! q = Some j →
     a !! i = Some x → a !! j = Some y → (y <= x)%Q) ∧
  (∀ i j x y, i ∈ top5 order → j < length a → j ∉ top5 order →
     a !! i = Some x → a !! j = Some y → (y <= x)%Q) ∧
  (∀ i best x y, head (top5 order) = Some i → argmax a = Ok best →
     a !! i = Some x → a !! best = Some y → (x == y)%Q).
Proof.
  intros Hsort.
  pose proof (is_argsort_length a order Hsort) as Hlen.
  split_and!.
  - unfold top5. by rewrite length_take, length_reverse, Hlen.
  - unfold top5. eapply sublist_NoDup; [|apply sublist_take]. rewrite reverse_Permutation.
    by eapply is_argsort_NoDup.
  - intros i Hi. apply (is_argsort_elem a order i Hsort).
    unfold top5 in Hi. apply elem_of_take in Hi as (p & Hp & _).
    apply elem_of_reverse. by eapply list_elem_of_lookup_2.
  - intros p q i j x y Hpq Hp Hq Hx Hy.
    apply top5_lookup in Hp as (Hp & Hp1 & _).
    apply top5_lookup in Hq as (Hq & Hq1 & _).
    destruct Hsort as [_ Hsorted].
    apply (Hsorted (length order - S q) (length order - S p) j i y x);
      [lia|done..].
  - intros i j x y Hi Hj Hout Hx Hy.
    apply list_elem_of_lookup in Hi as [p Hp].
    apply top5_lookup in Hp as (Hp & Hp1 & Hp5).
    pose proof Hj as Hj'.
    apply (is_argsort_elem a order j Hsort) in Hj'.
    apply list_elem_of_lookup in Hj' as [r Hr].
    pose proof (lookup_lt_Some _ _ _ Hr) as Hlt.
    destruct (decide (r < length order - S p)) as [Hrp|Hrp].
    + destruct Hsort as [_ Hsorted].
      by apply (Hsorted r (length order - S p) j i y x).
    + destruct Hout. apply list_elem_of_lookup.
      exists (length order - S r). apply top5_lookup.
      split_and!; [|lia..].
      by replace (length order - S (length order - S r)) with r by lia.
  - intros i best x y Hhead Hbest Hx Hy.
    rewrite head_lookup in Hhead.
    apply top5_lookup in Hhead as (Hi & _ & _).
    destruct (argmax_spec a best Hbest) as (v & Hv & Hmax).
    assert (v = y) as -> by congruence.
    apply Qle_antisym.
    + by apply (Hmax i).
    + apply (is_argsort_last a order i best x y Hsort); [done| |done..].
      by apply lookup_lt_Some in Hy.
Qed.

Section more_properties.
Context {E : Externals}.
Implicit Types (w : World) (jd : JobDescriptor) (ar : AsyncResult).

Ltac run_cell :=
  unfold mbind, M_bind, mret, M_ret, lift, print; cbn beta iota.

Ltac step H :=
  rewrite bind_run, H; cbn beta iota; rewrite ?with_np_random_twice.

(** ** Seeding (cell 7) *)

(** The result and the next random state of a computation are functions of
    the random state it starts from. *)
Local Abbreviation rng_determined m :=
  (∀ w w', np_random w = np_random w' →
     (m w).1 = (m w').1 ∧ np_random (m w).2 = np_random (m w').2).













(** ** Dispatch Loop: what it leaves alone, and where it stops *)

Lemma sample_at_Raise (s : Samples) (i : nat) (e : exn) :
  sample_at s i = Raise e → e = IndexError.
Proof.
  unfold sample_at, getitem.
  destruct (conv_sizes s !! i); simpl; [|by intros [= <-]].
  destruct (fc_sizes s !! i); simpl; [|by intros [= <-]].
  destruct (dropout s !! i); simpl; [|by intros [= <-]].
  destruct (optimizer s !! i); simpl; [|by intros [= <-]].
  destruct (lr s !! i); simpl; [done|by intros [= <-]].
Qed.

Lemma dispatch_from_stop cfg s dir (k : nat) : ∀ (n a : nat) acc w e,
  k < n →
  (∀ i, i < k → is_Ok (sample_at s (a + i))) →
  sample_at s (a + k) = Raise e →
  ∃ jobs lines,
    for_each (seq a n) (dispatch_body cfg s dir) acc w
    = (Raise e, dispatched w jobs lines) ∧
    length jobs = k ∧ length lines = k.
Proof.
  induction k as [|k IH]; intros n a acc w e Hn Hbefore Hk;
    (destruct n as [|n]; [lia|]); cbn [seq for_each];
    rewrite bind_run, dispatch_body_run.
  - rewrite Nat.add_0_r in Hk. rewrite Hk.
    exists [], []. by rewrite dispatched_nil.
  - destruct (Hbefore 0) as [hp Hhp]; [lia|].
    rewrite Nat.add_0_r in Hhp. rewrite Hhp.
    destruct (IH n (S a) (acc ++ [ {| msg_id := length (queue w) |} ])
                (dispatched w [job_descriptor cfg hp (checkpoint_file dir a)]
                   [trial_line a hp]) e)
      as (jobs & lines & Hrun & Hj & Hl).
    + lia.
    + intros i Hi. rewrite Nat.add_succ_comm. apply Hbefore. lia.
    + by rewrite Nat.add_succ_comm.
    + eexists (_ :: jobs), (_ :: lines). rewrite Hrun, dispatched_cons.
      split; [done|]. simpl. by rewrite Hj, Hl.
Qed.

(** X6: when the arrays hold the hyper-parameters of the first [k] trials
    only, [k] being less than the trial count, the loop raises [IndexError]
    at trial [k]: the [k] jobs before it stay queued and their lines
    printed, nothing is undone. *)
Theorem dispatch_loop_stops_at_missing_trial cfg s dir w k :
  k < n_hpo_trials cfg →
  (∀ i, i < k → is_Ok (sample_at s i)) →
  ¬ is_Ok (sample_at s k) →
  ∃ jobs lines,
    (dispatch_loop cfg s dir w).1 = Raise IndexError ∧
    queue (dispatch_loop cfg s dir w).2 = queue w ++ jobs ∧
    stdout (dispatch_loop cfg s dir w).2 = stdout w ++ lines ∧
    length jobs = k ∧ length lines = k.
Proof.
  intros Hk Hbefore Hnot.
  destruct (sample_at s k) as [hp|e] eqn:He; [destruct Hnot; by eexists|].
  pose proof (sample_at_Raise s k e He) as ->.
  destruct (dispatch_from_stop cfg s dir k (n_hpo_trials cfg) 0 [] w IndexError)
    as (jobs & lines & Hrun & Hj & Hl); [done..|].
  exists jobs, lines. unfold dispatch_loop. by rewrite Hrun.
Qed.

Lemma dispatch_loop_lines cfg s dir w :
  ∃ r jobs lines,
    dispatch_loop cfg s dir w = (r, dispatched w jobs lines) ∧
    length lines = length jobs.
Proof.
  assert (∀ k a acc w, ∃ r jobs lines,
            for_each (seq a k) (dispatch_body cfg s dir) acc w
            = (r, dispatched w jobs lines) ∧ length lines = length jobs)
    as Hloop.
  { induction k as [|k IH]; intros a acc w0.
    - exists (Ok acc), [], []. simpl. by rewrite dispatched_nil.
    - cbn [seq for_each]. rewrite bind_run, dispatch_body_run.
      destruct (sample_at s a) as [hp|e].
      + destruct (IH (S a) (acc ++ [ {| msg_id := length (queue w0) |} ])
                    (dispatched w0
                       [job_descriptor cfg hp (checkpoint_file dir a)]
                       [trial_line a hp]))
          as (r & jobs & lines & Hrun & Hlen).
        eexists r, (_ :: jobs), (_ :: lines).
        rewrite Hrun, dispatched_cons. split; [done|]. simpl. by rewrite Hlen.
      + exists (Raise e), [], []. by rewrite dispatched_nil. }
  apply (Hloop (n_hpo_trials cfg) 0 [] w).
Qed.

(** X7: the Dispatch Loop only queues and prints.  Whether it completes
    or raises, it appends to the queue and to the console, one line per job
    queued, and leaves everything else as it was: no task is run, no result
    fetched, no file written, no random number drawn. *)
Theorem dispatch_loop_only_queues cfg s dir w :
  ∃ jobs lines,
    queue (dispatch_loop cfg s dir w).2 = queue w ++ jobs ∧
    stdout (dispatch_loop cfg s dir w).2 = stdout w ++ lines ∧
    length lines = length jobs ∧
    outcomes (dispatch_loop cfg s dir w).2 = outcomes w ∧
    fetched (dispatch_loop cfg s dir w).2 = fetched w ∧
    files (dispatch_loop cfg s dir w).2 = files w ∧
    np_random (dispatch_loop cfg s dir w).2 = np_random w ∧
    environ (dispatch_loop cfg s dir w).2 = environ w.
Proof.
  destruct (dispatch_loop_lines cfg s dir w) as (r & jobs & lines & Hrun & Hlen).
  exists jobs, lines. by rewrite Hrun.
Qed.

(** X8: running the Dispatch Loop a second time queues the same jobs
    again, with the same checkpoint paths, under new handles: the queue
    then holds every job twice, at positions [i] and [n_hpo_trials + i]
    after the earlier tasks. *)
Theorem dispatch_loop_twice cfg s dir w results1 w1 results2 w2 :
  dispatch_loop cfg s dir w = (Ok results1, w1) →
  dispatch_loop cfg s dir w1 = (Ok results2, w2) →
  ∃ jobs,
    length jobs = n_hpo_trials cfg ∧
    queue w2 = queue w ++ jobs ++ jobs ∧
    (∀ i jd, jobs !! i = Some jd →
       jd_checkpoint_file jd = Some (checkpoint_file dir i)) ∧
    ∀ i, i < n_hpo_trials cfg →
      results1 !! i = Some {| msg_id := length (queue w) + i |} ∧
      results2 !! i
      = Some {| msg_id := length (queue w) + n_hpo_trials cfg + i |}.
Proof.
  intros Hloop1 Hloop2.
  destruct (dispatch_loop_run cfg s dir w)
    as (r1 & jobs1 & lines1 & Hrun1 & _ & Hjobs1 & Hres1 & _).
  rewrite Hrun1 in Hloop1. injection Hloop1 as -> <-.
  destruct (Hres1 results1 eq_refl) as [Hl1 ->].
  destruct (dispatch_loop_run cfg s dir (dispatched w jobs1 lines1))
    as (r2 & jobs2 & lines2 & Hrun2 & _ & Hjobs2 & Hres2 & _).
  rewrite Hrun2 in Hloop2. injection Hloop2 as -> <-.
  destruct (Hres2 results2 eq_refl) as [Hl2 ->].
  assert (jobs2 = jobs1) as ->.
  { apply (list_eq_same_length _ _ (n_hpo_trials cfg)); [done..|].
    intros i jd2 jd1 _ H2 H1.
    destruct (Hjobs1 i jd1 H1) as (hp1 & Hhp1 & ->).
    destruct (Hjobs2 i jd2 H2) as (hp2 & Hhp2 & ->). congruence. }
  exists jobs1. split_and!; [done | | |].
  - unfold dispatched; simpl. by rewrite <- app_assoc.
  - intros i jd Hi. by destruct (Hjobs1 i jd Hi) as (hp & _ & ->).
  - intros i Hi. rewrite !list_lookup_fmap, !lookup_seq_lt by done. simpl.
    split; [done|]. unfold dispatched; simpl. by rewrite length_app, Hl1.
Qed.

(** ** The pool between submission and collection (cells 11 and 13) *)

Lemma execute_queue id w : queue (execute id w) = queue w.
Proof.
  rewrite execute_run. destruct (outcomes w !! id); [done|].
  destruct (queue w !! id) as [jd|]; [|done].
  destruct (job_outcome jd) as [[h m]|e]; [|done].
  simpl. by destruct (checkpointed_frame jd m w) as (-> & _).
Qed.

Lemma pool_run_queue (order : list nat) w : queue (pool_run order w) = queue w.
Proof.
  revert w. induction order as [|id order IH]; intros w; [done|].
  change (queue (pool_run order (execute id w)) = queue w).
  by rewrite IH, execute_queue.
Qed.

Lemma filter_all {A} (P : A → Prop) `{∀ x, Decision (P x)} (l : list A) :
  Forall P l → filter P l = l.
Proof.
  induction 1 as [|x l Hx _ IH]; [done|].
  by rewrite filter_cons_True, IH.
Qed.

Lemma ready_true ar w : ready ar w = true ↔ is_Some (outcomes w !! msg_id ar).
Proof. unfold ready. apply bool_decide_eq_true. Qed.

Lemma execute_done id w : is_Some (outcomes w !! id) → execute id w = w.
Proof. intros [r Hr]. unfold execute. by rewrite Hr. Qed.

(** Collecting from handles whose tasks have all finished changes the
    fetch log only. *)
Lemma result_collector_again (handles : list AsyncResult) :
  ∀ (jobs : list JobDescriptor) w,
  pool_ok w →
  Forall2 (λ ar jd, queue w !! msg_id ar = Some jd) handles jobs →
  Forall (λ ar, is_Some (outcomes w !! msg_id ar))
    (take (attempts jobs) handles) →
  result_collector handles w
  = (mapM get_result jobs,
     with_fetched (fetched w ++ (msg_id <$> take (attempts jobs) handles)) w).
Proof.
  unfold result_collector.
  induction handles as [|ar handles IH]; intros jobs w Hok Hall Hdone.
  - apply Forall2_nil_inv_l in Hall as ->. simpl.
    rewrite app_nil_r. by destruct w.
  - apply Forall2_cons_inv_l in Hall as (jd & jobs' & Hjd & Hall & ->).
    destruct (async_get_run ar jd w Hok Hjd) as [Hget _].
    rewrite mapM_M_cons, bind_run, Hget. simpl in Hdone |- *.
    destruct (get_result jd) as [h|e] eqn:Hres.
    + apply Forall_cons in Hdone as [Har Hdone].
      rewrite (execute_done _ _ Har).
      rewrite bind_run, (IH jobs' (with_fetched (fetched w ++ [msg_id ar]) w));
        [|done..].
      simpl. destruct (mapM get_result jobs'); simpl;
        unfold with_fetched; simpl; by rewrite <- app_assoc.
    + apply Forall_cons in Hdone as [Har _].
      by rewrite (execute_done _ _ Har).
Qed.

(** After a collection that returns, every task has its outcome recorded
    and its checkpoint on the file system. *)
Lemma collected_trials cfg s dir w0 results w1 schedule histories w3 :
  fresh_pool w0 →
  dispatch_loop cfg s dir w0 = (Ok results, w1) →
  result_collector results (pool_run schedule w1) = (Ok histories, w3) →
  Forall (λ ar, is_Some (outcomes w3 !! msg_id ar)) results ∧
  ∀ i, i < n_hpo_trials cfg →
    ∃ jd h m,
      queue w1 !! i = Some jd ∧ job_outcome jd = Ok (h, m) ∧
      histories !! i = Some h ∧
      files w3 !! checkpoint_file dir i = Some m.
Proof.
  intros Hfresh Hloop Hcollect.
  destruct (dispatch_fresh _ _ _ _ _ _ Hfresh Hloop)
    as (Hok1 & Hf1 & Hlen & Hres & Hdesc & Hall).
  destruct (pool_run_ok schedule w1 Hok1) as (Hok & Hq & Hf & _).
  destruct (result_collector_run results (queue w1) (pool_run schedule w1))
    as (w' & Hrun & Hok3 & Hq3 & _ & _ & Hsome); [done | by rewrite Hq |].
  rewrite Hrun in Hcollect. injection Hcollect as Hm ->.
  rewrite (attempts_all _ _ Hm), take_ge in Hsome
    by (apply Forall2_length in Hall; lia).
  split; [done|]. intros i Hi.
  destruct (lookup_lt_is_Some_2 (queue w1) i) as [jd Hjd]; [lia|].
  destruct (Hdesc i jd Hjd) as (hp & Hhp & Hjd').
  pose proof Hm as Hall2. apply mapM_result_Ok in Hall2.
  destruct (Forall2_lookup_l _ _ _ _ _ Hall2 Hjd) as (h & Hh & Hget).
  apply get_result_Ok in Hget as [m Hjob].
  rewrite list.Forall_forall in Hsome.
  destruct (Hsome {| msg_id := i |}) as [r Hr].
  { apply (list_elem_of_lookup_2 _ i).
    by rewrite Hres, list_lookup_fmap, lookup_seq_lt. }
  simpl in Hr. destruct Hok3 as [Hout _].
  destruct (Hout i r Hr) as (jd' & Hjd2 & _ & Hfile).
  rewrite Hq3, Hq, Hjd in Hjd2. injection Hjd2 as <-.
  exists jd, h, m. split_and!; [done..|].
  apply (Hfile h m); [done|]. by rewrite Hjd'.
Qed.

(** X10: after a collection that returns, on a fresh client and whatever
    the order in which the pool finished the tasks, every trial is there:
    its history is at its position, the checkpoint path of its index holds
    the artifact of its own job, and cell 11 now counts all the trials. *)
Theorem every_trial_collected cfg s dir w0 results w1 schedule histories w3 :
  fresh_pool w0 →
  dispatch_loop cfg s dir w0 = (Ok results, w1) →
  result_collector results (pool_run schedule w1) = (Ok histories, w3) →
  tasks_completed results w3 = n_hpo_trials cfg ∧
  ∀ i, i < n_hpo_trials cfg →
    ∃ jd h m,
      queue w1 !! i = Some jd ∧ job_outcome jd = Ok (h, m) ∧
      histories !! i = Some h ∧
      files w3 !! checkpoint_file dir i = Some m.
Proof.
  intros Hfresh Hloop Hcollect.
  destruct (collected_trials _ _ _ _ _ _ _ _ _ Hfresh Hloop Hcollect)
    as [Hsome Hall].
  split; [|done].
  destruct (dispatch_fresh _ _ _ _ _ _ Hfresh Hloop) as (_ & _ & _ & Hres & _).
  unfold tasks_completed. rewrite filter_all.
  - by rewrite Hres, length_fmap, length_seq.
  - eapply Forall_impl; [exact Hsome|]. intros ar Har. by apply ready_true.
Qed.

(** X11: collecting a second time (cell 13 run again) gives the same
    result as the first time, histories or exception, without running any
    task again: outcomes and files are those left by the first collection,
    and the same handles are fetched once more. *)
Theorem result_collector_twice cfg s dir w0 results w1 schedule :
  fresh_pool w0 →
  dispatch_loop cfg s dir w0 = (Ok results, w1) →
  let run1 := result_collector results (pool_run schedule w1) in
  let run2 := result_collector results run1.2 in
  run2.1 = run1.1 ∧
  outcomes run2.2 = outcomes run1.2 ∧
  files run2.2 = files run1.2 ∧
  queue run2.2 = queue run1.2 ∧
  fetched run2.2 = fetched run1.2 ++ fetched run1.2.
Proof.
  intros Hfresh Hloop.
  destruct (dispatch_fresh _ _ _ _ _ _ Hfresh Hloop)
    as (Hok1 & Hf1 & Hlen & Hres & Hdesc & Hall).
  destruct (pool_run_ok schedule w1 Hok1) as (Hok & Hq & Hf & _).
  destruct (result_collector_run results (queue w1) (pool_run schedule w1))
    as (w' & Hrun & Hok3 & Hq3 & _ & Hfetched & Hsome); [done | by rewrite Hq |].
  cbv zeta. rewrite Hrun. simpl.
  rewrite (result_collector_again results (queue w1) w');
    [|done | by rewrite Hq3, Hq | done].
  simpl. rewrite Hfetched, Hf, Hf1. by split_and!.
Qed.

(** ** Evaluator (cells 27-30) *)

(** A summary that completes has printed its three lines. *)
Lemma summarize_metrics_report labels outputs threshold weights :
  ∃ r report,
    (∀ w, summarize_metrics labels outputs threshold weights w
          = (r, with_stdout (stdout w ++ report) w)) ∧
    (is_Ok r → length report = 3) ∧
    (is_Ok (accuracy_score labels (preds outputs threshold) weights) →
     is_Ok (precision_score labels (preds outputs threshold) weights) →
     is_Ok (recall_score labels (preds outputs threshold) weights) →
     r = Ok ()).
Proof.
  unfold summarize_metrics. cbv zeta.
  destruct (accuracy_score labels (preds outputs threshold) weights) as [a|e].
  2: { exists (Raise e), []. split_and!.
       - intros w. run_cell. by rewrite with_stdout_nil.
       - by intros [? ?].
       - by intros [? ?]. }
  destruct (precision_score labels (preds outputs threshold) weights) as [p|e].
  2: { exists (Raise e), ["Accuracy:   " +:+ fmt_f 4 a]. split_and!.
       - intros w. by run_cell.
       - by intros [? ?].
       - by intros _ [? ?]. }
  destruct (recall_score labels (preds outputs threshold) weights) as [r|e].
  2: { exists (Raise e),
         ["Accuracy:   " +:+ fmt_f 4 a; "Purity:     " +:+ fmt_f 4 p].
       split_and!.
       - intros w. run_cell. f_equal. apply (with_stdout_app w [_] [_]).
       - by intros [? ?].
       - by intros _ _ [? ?]. }
  exists (Ok ()),
    ["Accuracy:   " +:+ fmt_f 4 a; "Purity:     " +:+ fmt_f 4 p;
     "Efficiency: " +:+ fmt_f 4 r].
  split_and!; [|done..].
  intros w. run_cell. f_equal.
  rewrite (with_stdout_app w [_] [_]). apply (with_stdout_app w [_; _] [_]).
Qed.

(** Cell 30 on given outputs: the two headings and the two summaries. *)
Lemma cell30_run labels outputs weights :
  ∃ r lines,
    (∀ w,
       (print "Unweighted metrics";;
        summarize_metrics labels outputs default_threshold None;;
        print "Weighted metrics";;
        summarize_metrics labels outputs default_threshold (Some weights)) w
       = (r, with_stdout (stdout w ++ lines) w)) ∧
    (is_Ok r → length lines = 8) ∧
    ((∀ p wt, is_Ok (accuracy_score labels p wt) ∧
              is_Ok (precision_score labels p wt) ∧
              is_Ok (recall_score labels p wt)) → r = Ok ()).
Proof.
  destruct (summarize_metrics_report labels outputs default_threshold None)
    as (r1 & rep1 & Hrun1 & Hlen1 & Hok1).
  destruct (summarize_metrics_report labels outputs default_threshold
              (Some weights)) as (r2 & rep2 & Hrun2 & Hlen2 & Hok2).
  destruct r1 as [[]|e1].
  2: { exists (Raise e1), ("Unweighted metrics" :: rep1). split_and!.
       - intros w. rewrite bind_run. unfold print at 1. cbn beta iota.
         rewrite bind_run, Hrun1. cbn beta iota.
         f_equal. unfold with_stdout; simpl. by rewrite <- app_assoc.
       - by intros [? ?].
       - intros Hall. destruct (Hall (preds outputs default_threshold) None)
           as (? & ? & ?). by apply Hok1. }
  exists r2, ("Unweighted metrics" :: rep1 ++ "Weighted metrics" :: rep2).
  split_and!.
  - intros w. rewrite bind_run. unfold print at 1. cbn beta iota.
    rewrite bind_run, Hrun1. cbn beta iota.
    rewrite bind_run. unfold print at 1. cbn beta iota.
    rewrite Hrun2. f_equal.
    unfold with_stdout; simpl. by rewrite <- !app_assoc.
  - intros Hr2. simpl. rewrite length_app. simpl.
    rewrite Hlen1, Hlen2; [lia | done | by eexists].
  - intros Hall.
    destruct (Hall (preds outputs default_threshold) (Some weights))
      as (? & ? & ?). by apply Hok2.
Qed.

(** The Evaluator returns its result and a world that differs from the
    one it started in by lines appended to the console. *)
Lemma evaluator_run cfg dir scores w :
  ∃ r lines,
    evaluator cfg dir scores w = (r, with_stdout (stdout w ++ lines) w) ∧
    (is_Ok r → length lines = 8) ∧
    (∀ ti tl tw i,
       load_file (path_join (input_dir cfg) "test.h5") (n_test cfg)
         = Ok (ti, tl, tw) →
       argmax scores = Ok i →
       (files w !! checkpoint_file dir i = None →
        r = Raise (OSError (checkpoint_file dir i)) ∧ lines = []) ∧
       (∀ m, files w !! checkpoint_file dir i = Some m →
        is_Ok (predict m ti) →
        (∀ p wt, is_Ok (accuracy_score tl p wt) ∧
                 is_Ok (precision_score tl p wt) ∧
                 is_Ok (recall_score tl p wt)) →
        r = Ok ())).
Proof.
  unfold evaluator. rewrite bind_run. unfold lift at 1.
  destruct (load_file _ _) as [[[ti tl] tw]|e].
  2: { exists (Raise e), []. rewrite with_stdout_nil.
       split_and!; [done | by intros [? ?] | by intros]. }
  cbn beta iota. rewrite bind_run. unfold lift at 1, model_file.
  destruct (argmax scores) as [i|e]; simpl.
  2: { exists (Raise e), []. rewrite with_stdout_nil.
       split_and!; [done | by intros [? ?] | by intros].  }
  rewrite bind_run. unfold load_model at 1.
  change (path_join dir ("model_" +:+ fmt_i_nat i +:+ ".h5"))
    with (checkpoint_file dir i).
  destruct (files w !! checkpoint_file dir i) as [m|] eqn:Hfile.
  2: { exists (Raise (OSError (checkpoint_file dir i))), [].
       rewrite with_stdout_nil. split_and!; [done | by intros [? ?] |].
       intros ti' tl' tw' i' Heq Hi'. simplify_eq.
       split; [intros _; split; reflexivity | intros ? ?; congruence]. }
  rewrite bind_run. unfold lift at 1.
  destruct (predict m ti) as [out|e] eqn:Hpred.
  2: { exists (Raise e), []. rewrite with_stdout_nil.
       split_and!; [done | by intros [? ?] |].
       intros ti' tl' tw' i' Heq Hi'. simplify_eq.
       split; [intros ?; congruence|]. intros m' Hm. simplify_eq.
       rewrite Hpred. by intros [? ?]. }
  cbn beta iota.
  destruct (cell30_run tl out tw) as (r & lines & Hrun & Hlen & Hok).
  exists r, lines. rewrite Hrun. split_and!; [done..|].
  intros ti' tl' tw' i' Heq Hi'. simplify_eq.
  split; [intros ?; congruence|]. intros m' _ _ Hall. by apply Hok.
Qed.


(** X13: when the test data loads but no file exists at the checkpoint
    path of the best trial, the Evaluator raises [OSError] for that path
    and prints nothing. *)
Theorem evaluator_missing_checkpoint cfg dir scores w ti tl tw i :
  load_file (path_join (input_dir cfg) "test.h5") (n_test cfg)
    = Ok (ti, tl, tw) →
  argmax scores = Ok i →
  files w !! checkpoint_file dir i = None →
  evaluator cfg dir scores w = (Raise (OSError (checkpoint_file dir i)), w).
Proof.
  intros Hload Hbest Hfile.
  destruct (evaluator_run cfg dir scores w) as (r & lines & Hrun & _ & Hcases).
  destruct (Hcases ti tl tw i Hload Hbest) as [Hnone _].
  destruct (Hnone Hfile) as [-> ->].
  by rewrite Hrun, with_stdout_nil.
Qed.

(** ** The report cells (20, 21 and 24) *)

Lemma argmax_total (a : list Q) :
  a ≠ [] → ∃ r, argmax a = Ok r ∧ r < length a.
Proof.
  destruct a as [|x l] eqn:Ha; [done|]. intros _. eexists. split; [done|].
  destruct (argmax_spec (x :: l) _ eq_refl) as (v & Hv & _).
  by apply lookup_lt_Some in Hv.
Qed.

Lemma argmin_total (a : list Q) :
  a ≠ [] → ∃ r, argmin a = Ok r ∧ r < length a.
Proof.
  destruct a as [|x l] eqn:Ha; [done|]. intros _. eexists. split; [done|].
  destruct (argmin_spec (x :: l) _ eq_refl) as (v & Hv & _).
  by apply lookup_lt_Some in Hv.
Qed.

Lemma draw_history_is_Ok (h : History) :
  is_Ok (draw_history h) ↔
  Forall (λ k, is_Some (h !! k)) ["loss"; "val_loss"; "acc"; "val_acc"].
Proof.
  unfold draw_history, dict_getitem. rewrite !Forall_cons, Forall_nil.
  destruct (h !! "loss") as [l|]; simpl;
    [|split; [by intros [? ?]|by intros ([? ?] & _)]].
  destruct (h !! "val_loss") as [vl|]; simpl;
    [|split; [by intros [? ?]|by intros (_ & [? ?] & _)]].
  destruct (h !! "acc") as [a|]; simpl;
    [|split; [by intros [? ?]|by intros (_ & _ & [? ?] & _)]].
  destruct (h !! "val_acc") as [va|]; simpl;
    [|split; [by intros [? ?]|by intros (_ & _ & _ & [? ?] & _)]].
  split; [by intros _; split_and!; eexists|by intros _; eexists].
Qed.

Lemma report_trial_run s histories lasts bests i hp l b (h : History) w :
  sample_at s i = Ok hp → lasts !! i = Some l → bests !! i = Some b →
  histories !! i = Some h →
  report_trial s histories lasts bests i w
  = (draw_history h,
     with_stdout (stdout w ++ [report_line i hp;
                               "  Last validation accuracy " +:+ fmt_f 4 l;
                               "  Best validation accuracy " +:+ fmt_f 4 b]) w).
Proof.
  intros Hhp Hl Hb Hh. unfold report_trial, getitem.
  rewrite Hhp, Hl, Hb, Hh. run_cell. f_equal.
  unfold with_stdout; simpl. by rewrite <- !app_assoc.
Qed.

(** X16: cells 20 and 21 on score arrays and histories of the same
    non-zero length, the hyper-parameter arrays covering every trial.
    Each prints three lines about the trial it selects, which are a trial
    of the highest and one of the lowest best score, and then draws the
    history of that trial: the cell fails, after its three lines, exactly
    when that history lacks one of the four metrics. *)
Theorem report_cells_name_the_extremes s histories lasts bests w :
  bests ≠ [] →
  length lasts = length bests → length histories = length bests →
  (∀ i, i < length bests → is_Ok (sample_at s i)) →
  ∃ best worst hpb hpw lb lw bb bw (hb hw : History),
    (sample_at s best = Ok hpb ∧ lasts !! best = Some lb ∧
     bests !! best = Some bb ∧ histories !! best = Some hb) ∧
    (sample_at s worst = Ok hpw ∧ lasts !! worst = Some lw ∧
     bests !! worst = Some bw ∧ histories !! worst = Some hw) ∧
    (∀ j x, bests !! j = Some x → (bw <= x <= bb)%Q) ∧
    cell20 s histories lasts bests w
    = (draw_history hb,
       with_stdout (stdout w ++ [report_line best hpb;
                                 "  Last validation accuracy " +:+ fmt_f 4 lb;
                                 "  Best validation accuracy " +:+ fmt_f 4 bb]) w) ∧
    cell21 s histories lasts bests w
    = (draw_history hw,
       with_stdout (stdout w ++ [report_line worst hpw;
                                 "  Last validation accuracy " +:+ fmt_f 4 lw;
                                 "  Best validation accuracy " +:+ fmt_f 4 bw]) w) ∧
    (is_Ok (cell20 s histories lasts bests w).1 ↔
     Forall (λ k, is_Some (hb !! k)) ["loss"; "val_loss"; "acc"; "val_acc"]) ∧
    (is_Ok (cell21 s histories lasts bests w).1 ↔
     Forall (λ k, is_Some (hw !! k)) ["loss"; "val_loss"; "acc"; "val_acc"]).
Proof.
  intros Hne Hlasts Hhist Hcover.
  destruct (argmax_total bests Hne) as (best & Hbest & Hb).
  destruct (argmin_total bests Hne) as (worst & Hworst & Hw).
  destruct (argmax_spec bests best Hbest) as (bb & Hbb & Hmax).
  destruct (argmin_spec bests worst Hworst) as (bw & Hbw & Hmin).
  destruct (Hcover best Hb) as [hpb Hhpb].
  destruct (Hcover worst Hw) as [hpw Hhpw].
  destruct (lookup_lt_is_Some_2 lasts best) as [lb Hlb]; [lia|].
  destruct (lookup_lt_is_Some_2 lasts worst) as [lw Hlw]; [lia|].
  destruct (lookup_lt_is_Some_2 histories best) as [hb Hhb]; [lia|].
  destruct (lookup_lt_is_Some_2 histories worst) as [hw Hhw]; [lia|].
  assert (cell20 s histories lasts bests w
          = report_trial s histories lasts bests best w) as H20.
  { unfold cell20. rewrite bind_run. unfold lift at 1. by rewrite Hbest. }
  assert (cell21 s histories lasts bests w
          = report_trial s histories lasts bests worst w) as H21.
  { unfold cell21. rewrite bind_run. unfold lift at 1. by rewrite Hworst. }
  rewrite H20, H21.
  rewrite (report_trial_run _ _ _ _ _ _ _ _ _ w Hhpb Hlb Hbb Hhb).
  rewrite (report_trial_run _ _ _ _ _ _ _ _ _ w Hhpw Hlw Hbw Hhw).
  exists best, worst, hpb, hpw, lb, lw, bb, bw, hb, hw.
  split_and!; try done.
  - intros j x Hx. split; [by eapply Hmin|by eapply Hmax].
  - apply draw_history_is_Ok.
  - apply draw_history_is_Ok.
Qed.

Lemma top_trials_run s bests (idx : list nat) : ∀ w,
  (∀ i, i ∈ idx → i < length bests ∧ is_Ok (sample_at s i)) →
  ∃ lines,
    for_each idx
      (λ i _,
         hp ← lift (sample_at s i);
         print (report_line i hp);;
         b ← lift (getitem bests i);
         print ("  Best validation accuracy " +:+ fmt_f 4 b))
      () w
    = (Ok (), with_stdout (stdout w ++ lines) w) ∧
    length lines = 2 * length idx ∧
    ∀ p i, idx !! p = Some i →
      ∃ hp b, sample_at s i = Ok hp ∧ bests !! i = Some b ∧
        lines !! (2 * p) = Some (report_line i hp) ∧
        lines !! (2 * p + 1)
        = Some ("  Best validation accuracy " +:+ fmt_f 4 b).
Proof.
  induction idx as [|i idx IH]; intros w Hidx.
  - exists []. simpl. split_and!; [by rewrite with_stdout_nil|done|done].
  - destruct (Hidx i) as [Hi [hp Hhp]]; [by apply elem_of_cons; left|].
    destruct (lookup_lt_is_Some_2 bests i Hi) as [b Hb].
    set (w1 := with_stdout
                 (stdout w ++ [report_line i hp;
                               "  Best validation accuracy " +:+ fmt_f 4 b]) w).
    destruct (IH w1) as (lines & Hrun & Hlen & Hlines).
    { intros j Hj. apply Hidx, elem_of_cons. by right. }
    exists ([report_line i hp;
             "  Best validation accuracy " +:+ fmt_f 4 b] ++ lines).
    split_and!.
    + simpl for_each. rewrite bind_run.
      assert ((hp ← lift (sample_at s i);
               print (report_line i hp);;
               b ← lift (getitem bests i);
               print ("  Best validation accuracy " +:+ fmt_f 4 b)) w
              = (Ok (), w1)) as ->.
      { unfold getitem. rewrite Hhp, Hb. run_cell. f_equal.
        unfold w1, with_stdout; simpl. by rewrite <- !app_assoc. }
      cbn beta iota. rewrite Hrun. f_equal. unfold w1.
      apply with_stdout_app.
    + simpl. rewrite Hlen. lia.
    + intros [|p] j Hj; simpl in Hj.
      * injection Hj as <-. exists hp, b. by split_and!.
      * destruct (Hlines p j Hj) as (hp' & b' & ? & ? & H1 & H2).
        exists hp', b'. split_and!; [done..| |].
        -- by replace (2 * S p) with (S (S (2 * p))) by lia.
        -- by replace (2 * S p + 1) with (S (S (2 * p + 1))) by lia.
Qed.

(** X18: cell 24, for any ascending order [argsort] may return and
    hyper-parameter arrays that cover every trial, completes and prints
    two lines for each of the [min 5 n] trials it lists, the lines of the
    trial of rank [p] at positions [2p] and [2p + 1], and touches nothing
    but the console. *)
Theorem cell24_lists_top_trials s bests order w :
  is_argsort bests order →
  (∀ i, i < length bests → is_Ok (sample_at s i)) →
  ∃ lines,
    cell24 s bests order w = (Ok (), with_stdout (stdout w ++ lines) w) ∧
    length lines = 2 * (5 `min` length bests) ∧
    ∀ p i, top5 order !! p = Some i →
      ∃ hp b, sample_at s i = Ok hp ∧ bests !! i = Some b ∧
        lines !! (2 * p) = Some (report_line i hp) ∧
        lines !! (2 * p + 1)
        = Some ("  Best validation accuracy " +:+ fmt_f 4 b).
Proof.
  intros Hsort Hcover.
  assert (∀ i, i ∈ top5 order → i < length bests) as Hvalid.
  { intros i Hi. apply (is_argsort_elem bests order i Hsort).
    unfold top5 in Hi. apply elem_of_take in Hi as (p & Hp & _).
    apply elem_of_reverse. by eapply list_elem_of_lookup_2. }
  destruct (top_trials_run s bests (top5 order) w)
    as (lines & Hrun & Hlen & Hlines).
  { intros i Hi. split; [by apply Hvalid|]. by apply Hcover, Hvalid. }
  exists lines. split_and!; [exact Hrun| |exact Hlines].
  rewrite Hlen. unfold top5.
  by rewrite length_take, length_reverse, (is_argsort_length _ _ Hsort).
Qed.

(** ** Files written by the search *)

Lemma execute_files id w (path : string) :
  (∀ jd, queue w !! id = Some jd → jd_checkpoint_file jd ≠ Some path) →
  files (execute id w) !! path = files w !! path.
Proof.
  intros Hpath. rewrite execute_run.
  destruct (outcomes w !! id); [done|].
  destruct (queue w !! id) as [jd|]; [|done].
  destruct (job_outcome jd) as [[h m]|e]; [|done].
  simpl. rewrite checkpointed_files.
  case_decide as Heq; [|done]. by destruct (Hpath jd eq_refl).
Qed.

Lemma pool_run_files (order : list nat) (path : string) : ∀ w,
  (∀ id jd, queue w !! id = Some jd → jd_checkpoint_file jd ≠ Some path) →
  files (pool_run order w) !! path = files w !! path.
Proof.
  induction order as [|id order IH]; intros w Hpath; [done|].
  change (files (pool_run order (execute id w)) !! path = files w !! path).
  rewrite IH.
  - apply execute_files. intros jd. apply Hpath.
  - intros id' jd. rewrite execute_queue. apply Hpath.
Qed.

Lemma result_collector_files (handles : list AsyncResult) (path : string) :
  ∀ w,
  (∀ id jd, queue w !! id = Some jd → jd_checkpoint_file jd ≠ Some path) →
  files (result_collector handles w).2 !! path = files w !! path.
Proof.
  unfold result_collector.
  induction handles as [|ar handles IH]; intros w Hpath; [done|].
  rewrite mapM_M_cons, bind_run.
  assert (∃ r, async_get ar w
               = (r, with_fetched (fetched (execute (msg_id ar) w) ++ [msg_id ar])
                       (execute (msg_id ar) w))) as [r Hget].
  { unfold async_get. cbv zeta.
    destruct (outcomes (execute (msg_id ar) w) !! msg_id ar) as [[h|e]|];
      by eexists. }
  rewrite Hget.
  assert (files (execute (msg_id ar) w) !! path = files w !! path) as Hexec.
  { apply execute_files. intros jd. apply Hpath. }
  destruct r as [h|e]; [|exact Hexec].
  rewrite bind_run.
  specialize (IH (with_fetched (fetched (execute (msg_id ar) w) ++ [msg_id ar])
                    (execute (msg_id ar) w))).
  destruct (mapM async_get handles _) as [[hs|e] w'] eqn:Hrest;
    simpl in IH |- *; (rewrite IH; [exact Hexec|]);
    intros id jd; rewrite execute_queue; apply Hpath.
Qed.

(** X19: the search writes nowhere but at the checkpoint paths of its
    trials.  After the Dispatch Loop on a fresh client, the pool finishing
    tasks in any order and a collection that returns or raises, a path
    that is not [model_i.h5] in the checkpoint directory for a trial [i]
    holds what it held before the search. *)
Theorem search_writes_only_checkpoints cfg s dir w0 results w1 schedule
    (path : string) :
  fresh_pool w0 →
  dispatch_loop cfg s dir w0 = (Ok results, w1) →
  (∀ i, i < n_hpo_trials cfg → path ≠ checkpoint_file dir i) →
  files (result_collector results (pool_run schedule w1)).2 !! path
  = files w0 !! path.
Proof.
  intros Hfresh Hloop Hpath.
  destruct (dispatch_fresh cfg s dir w0 results w1 Hfresh Hloop)
    as (_ & _ & Hlen & _ & Hdesc & _).
  assert (∀ id jd, queue w1 !! id = Some jd →
                   jd_checkpoint_file jd ≠ Some path) as Hjobs.
  { intros id jd Hjd.
    destruct (Hdesc id jd Hjd) as (hp & _ & ->). simpl.
    intros [= <-]. apply (Hpath id); [|done].
    apply lookup_lt_Some in Hjd. lia. }
  assert (files w1 = files w0) as <-.
  { destruct (dispatch_loop_lines cfg s dir w0) as (r & jobs & lines & Hrun & _).
    rewrite Hrun in Hloop. by injection Hloop as _ <-. }
  rewrite result_collector_files, pool_run_files; [done..|].
  intros id jd. rewrite pool_run_queue. apply Hjobs.
Qed.

End more_properties.

(** ** Instances of the further properties *)



(** Arrays for two trials under a configuration that asks for three. *)
Lemma dispatch_loop_stops_at_missing_trial_witness :
  ∃ jobs lines,
    (dispatch_loop Toy.small_config Toy.short_samples "/ckpt" Toy.init_world).1
      = Raise IndexError ∧
    queue (dispatch_loop Toy.small_config Toy.short_samples "/ckpt"
             Toy.init_world).2 = queue Toy.init_world ++ jobs ∧
    stdout (dispatch_loop Toy.small_config Toy.short_samples "/ckpt"
              Toy.init_world).2 = stdout Toy.init_world ++ lines ∧
    length jobs = 2 ∧ length lines = 2.
Proof.
  apply (dispatch_loop_stops_at_missing_trial (E := Toy.externals)
           Toy.small_config Toy.short_samples "/ckpt" Toy.init_world 2).
  - vm_compute. lia.
  - intros [|[|i]] Hi; [by eexists | by eexists | lia].
  - by intros [hp Hhp].
Defined.

(** The loop run twice on the concrete instance. *)
Lemma dispatch_loop_twice_witness :
  ∃ jobs,
    length jobs = 3 ∧
    queue (dispatch_loop Toy.small_config Toy.samples Toy.checkpoint_dir
             Toy.after_dispatch).2
    = queue Toy.seeded ++ jobs ++ jobs.
Proof.
  destruct (dispatch_loop_twice (E := Toy.externals) Toy.small_config
              Toy.samples Toy.checkpoint_dir Toy.seeded Toy.handles
              Toy.after_dispatch
              [ {| msg_id := 3 |}; {| msg_id := 4 |}; {| msg_id := 5 |} ]
              (dispatch_loop Toy.small_config Toy.samples Toy.checkpoint_dir
                 Toy.after_dispatch).2)
    as (jobs & Hlen & Hq & _).
  - apply run_eq. by vm_compute.
  - apply run_eq. by vm_compute.
  - exists jobs. split; [exact Hlen | exact Hq].
Defined.


(** The collection of the three trials of the concrete instance. *)
Lemma every_trial_collected_witness :
  tasks_completed Toy.handles Toy.after_collection = 3 ∧
  ∃ m, files Toy.after_collection !! checkpoint_file Toy.checkpoint_dir 0
       = Some m.
Proof.
  destruct (every_trial_collected (E := Toy.externals)
              Toy.small_config Toy.samples Toy.checkpoint_dir Toy.seeded
              Toy.handles Toy.after_dispatch [2; 0] Toy.histories
              Toy.after_collection) as (Hcount & Hall).
  - by vm_compute.
  - apply run_eq. by vm_compute.
  - apply run_eq. by vm_compute.
  - split; [exact Hcount|].
    destruct (Hall 0) as (jd & h & m & _ & _ & _ & Hfile); [vm_compute; lia|].
    exists m. exact Hfile.
Defined.

(** The failing collection run twice: the same exception, the same two
    handles fetched again. *)
Lemma result_collector_twice_witness :
  (result_collector Toy.handles
     (result_collector Toy.handles
        (pool_run [2; 0] Toy.after_dispatch_failing)).2).1
  = (result_collector Toy.handles
       (pool_run [2; 0] Toy.after_dispatch_failing)).1.
Proof.
  refine (proj1 (result_collector_twice (E := Toy.externals)
            Toy.failing_config Toy.samples Toy.checkpoint_dir Toy.seeded
            Toy.handles Toy.after_dispatch_failing [2; 0] _ _)).
  - by vm_compute.
  - apply run_eq. by vm_compute.
Defined.

(** An evaluation before any training: nothing has been checkpointed. *)
Lemma evaluator_missing_checkpoint_witness :
  evaluator Toy.small_config Toy.checkpoint_dir
    [1 # 2; 3 # 4; 1 # 2] Toy.init_world
  = (Raise (OSError (checkpoint_file Toy.checkpoint_dir 1)), Toy.init_world).
Proof.
  apply (evaluator_missing_checkpoint (E := Toy.externals)
           Toy.small_config Toy.checkpoint_dir [1 # 2; 3 # 4; 1 # 2]
           Toy.init_world Toy.dataset.1.1 Toy.dataset.1.2 Toy.dataset.2 1).
  - reflexivity.
  - reflexivity.
  - reflexivity.
Defined.



(** Six best scores with a tie for the first place. *)
Lemma top5_ranks_best_first_witness :
  length (top5 (argsort [3 # 5; 9 # 10; 11 # 20; 7 # 10; 9 # 10; 1 # 2])) = 5 ∧
  NoDup (top5 (argsort [3 # 5; 9 # 10; 11 # 20; 7 # 10; 9 # 10; 1 # 2])).
Proof.
  destruct (top5_ranks_best_first
              [3 # 5; 9 # 10; 11 # 20; 7 # 10; 9 # 10; 1 # 2]
              (argsort [3 # 5; 9 # 10; 11 # 20; 7 # 10; 9 # 10; 1 # 2]))
    as (Hlen & Hnodup & _).
  - apply argsort_is_argsort.
  - split; [exact Hlen|exact Hnodup].
Defined.

(** The report on three trials of the concrete instance, the history of
    the best one lacking the training metrics. *)
Lemma report_cells_name_the_extremes_witness :
  ∃ best worst bb bw,
    [4 # 5; 9 # 10; 4 # 5] !! best = Some bb ∧
    [4 # 5; 9 # 10; 4 # 5] !! worst = Some bw ∧ (bw <= bb)%Q.
Proof.
  destruct (report_cells_name_the_extremes (E := Toy.externals) Toy.samples
              [Toy.full_history; synthetic_history [1 # 2; 9 # 10; 4 # 5];
               Toy.full_history]
              [3 # 4; 4 # 5; 3 # 4] [4 # 5; 9 # 10; 4 # 5] Toy.init_world)
    as (best & worst & _ & _ & _ & _ & bb & bw & _ & _
        & (_ & _ & Hbb & _) & (_ & _ & Hbw & _) & Hrange & _).
  - done.
  - reflexivity.
  - reflexivity.
  - intros i Hi. destruct i as [|[|[|i]]]; [by eexists..|simpl in Hi; lia].
  - exists best, worst, bb, bw. split_and!; [exact Hbb|exact Hbw|].
    apply (Hrange best bb Hbb).
Defined.

(** The ranking of the three trials of the concrete instance. *)
Lemma cell24_lists_top_trials_witness :
  ∃ lines,
    cell24 Toy.samples [3 # 4; 9 # 10; 1 # 2]
      (argsort [3 # 4; 9 # 10; 1 # 2]) Toy.init_world
    = (Ok (), with_stdout (stdout Toy.init_world ++ lines) Toy.init_world) ∧
    length lines = 6.
Proof.
  destruct (cell24_lists_top_trials (E := Toy.externals) Toy.samples
              [3 # 4; 9 # 10; 1 # 2] (argsort [3 # 4; 9 # 10; 1 # 2])
              Toy.init_world) as (lines & Hrun & Hlen & _).
  - apply argsort_is_argsort.
  - intros i Hi. destruct i as [|[|[|i]]]; [by eexists..|simpl in Hi; lia].
  - exists lines. split; [exact Hrun|exact Hlen].
Defined.

(** The training data of the concrete instance, whatever the search
    leaves there. *)
Lemma search_writes_only_checkpoints_witness :
  files Toy.after_collection !! "/data/train.h5"
  = files Toy.init_world !! "/data/train.h5".
Proof.
  apply (search_writes_only_checkpoints (E := Toy.externals)
           Toy.small_config Toy.samples Toy.checkpoint_dir Toy.seeded
           Toy.handles Toy.after_dispatch [2; 0] "/data/train.h5").
  - by vm_compute.
  - apply run_eq. by vm_compute.
  - intros i Hi. destruct i as [|[|[|i]]]; [by vm_compute..|simpl in Hi; lia].
Defined.
